(* ===== verification/_CoqProject ===== *)
-Q . S2P
Prelude.v
RustStr.v
Trim.v
MultiMap.v
StoreSpec.v
Console.v
Menu.v
Handlers.v
Loop.v
Trimmed.v
Sessions.v
Refinement.v
Termination.v
Safety.v
