(* ===== verification/Prelude.v ===== *)
(** * A verification development for inmemory-database-rust

    The program ([src/main.rs], one file) is an interactive key-value
    store: [main] creates an empty [multimap::MultiMap<String, String>]
    and calls [program_loop], which prints a five-item menu
    ([display_prompt]), reads a selection ([take_input_and_verify]),
    runs one of five handlers ([create_entry], [select_entry],
    [update_entry], [delete_entry], [view_all_entries]) and calls itself.
    Control flows one way: console input -> menu -> handler -> store ->
    console output.  There is no concurrency and no persistence.

    ** Files, in dependency order
    - [Prelude.v] (this file): the outcome of a run ([Done], [Panic],
      [NoFuel]), the process monad [M] (explicit state passing with
      panics) with its notation in [rs_scope], Rust's [unwrap]/[expect],
      the [for] loop [for_each], the hint databases [rs] and the shared
      list and monad lemmas.
    - [RustStr.v]: the Rust standard-library number functions the
      program calls: [i32::from_str] (the checked digit loop [accumulate]
      on 32-bit integers) and [Display] for [usize]; with the equivalence
      of the checked loop with a reference parser, the parse/print round
      trip and the bounds of parsed values.
    - [Trim.v]: [str::trim] on the UTF-8 bytes of the text, removing every
      Unicode White_Space character (one, two or three bytes) at either
      end: a generic [strip] over byte patterns, read forwards for
      [trim_start] and on the reversed bytes for [trim_end]; its
      specification ([trim_spec]: it removes exactly the white space at
      both ends), [trim_pad] and idempotence.
    - [MultiMap.v]: the store.  The crate's seven methods the program
      calls form the class [MultiMapOps]; [MultiMapLaws] states their
      behaviour in terms of the lookup [mm_get_vec]; [MultiMap] and its
      instance implement them on a stdpp [gmap] from key to vector, as the
      crate's [HashMap<K, Vec<V>>] does.  The invariant [mm_wf] (no key
      maps to an empty vector) and its preservation by each operation.
    - [StoreSpec.v]: the store of the spec (section 4.1) as the log of the
      inserted pairs, with [spec_insert], [spec_lookup],
      [spec_replace_first], [spec_remove]; the relation [refines] (every
      lookup agrees) and its preservation by each [MultiMap] operation:
      any store with the interface implements the spec's store.
    - [Console.v]: the process state [Proc] (database, unread input lines,
      printed output) and [print], [println], [flush], [read_line]; the
      predicate [preserves R] of computations whose final state is related
      to their initial state by a preorder [R], composed through [bind],
      [if] and [for_each], with two instances: [db_pres] (the database is
      left alone) and [input_suffix] (input is only consumed).
    - [Menu.v]: [Choice], [OPTIONS], [display_prompt] and
      [take_input_and_verify] (lines 8-57), with the theorems on valid,
      invalid and missing input.
    - [Handlers.v]: the five handlers (lines 59-151), generic over any
      store with the [MultiMap] interface, and their theorems on every
      branch; the preservation by each handler of any store property that
      the handlers' three store updates preserve.
    - [Loop.v]: [program_loop] and [main] (lines 153-186), one iteration
      as the step relation [loop_step], store invariants over all
      reachable states ([reachable_inv], instantiated with [mm_wf]), the
      relation of the budgeted loop to [loop_step] ([program_loop_step])
      and the spec's scenarios A-E run through [main] as examples.
    - [Trimmed.v]: the type of the stored strings: every key and value in
      a reachable store is its own [trim] ([reachable_trimmed]).
    - [Refinement.v]: the spec's five operations on the abstract store
      ([spec_command], section 4.2) and its command loop ([spec_step]);
      each handler refines its operation ([dispatch_refines]) and the
      loop's reachable states correspond to the spec machine's, in both
      directions ([reachable_refines], [spec_reachable_implemented]);
      View All prints a permutation of the log ([view_all_refines]).
    - [Termination.v]: the measure that makes runs end: the retry chain
      of [take_input_and_verify] needs exactly one call per line up to the
      first valid one ([take_input_terminates]); every iteration of the
      loop consumes input, so the number of iterations is bounded by the
      input's length ([loop_iterations_bounded]), the measure that makes
      [loop_step] well founded.
    - [Sessions.v]: the spec's section 8 properties as sequences of
      handler runs on typed input: Creates then Select list the values in
      insertion order ([creates_then_select]), Update then Select shows
      the first value replaced ([update_then_select]), Delete then Select
      reports the key missing ([delete_then_select]).
    - [Safety.v]: where the program can panic: on input without read
      errors and from a well-formed store, a panic of the loop happens in
      the selection of an iteration the loop reached, after a rejected
      line, in the conversion of the re-prompt's discarded result
      ([program_loop_panics_only_in_selection]); no handler panics
      ([dispatch_no_panic]).

    ** How the model corresponds to the code
    A Rust function becomes a definition of type [M (Proc T) A]: it reads
    and writes the process state and may panic; each statement of the
    source is a step, in source order, and each [if], [match] and early
    [return] is a branch.  [read_line] on a fresh buffer returns the next
    line, an empty string at end of input (Rust's [Ok(0)]), or an error
    that [expect] turns into a panic with the source's message.  The
    handlers and the loop are generic in the store type [T]: their
    theorems use only [MultiMapLaws], so they hold whatever order the
    [HashMap] iterates its keys in; the concrete runs use [MultiMap].

    ** Fuel
    [take_input_and_verify] and [program_loop] recurse without bound in
    the source.  They take a call-depth budget [fuel] (one unit per nested
    call, the two functions sharing it as they share the stack) and return
    [NoFuel] when it is spent.  Results that the code returns are proved
    for every budget above a small bound (one for a valid selection, two
    for the re-prompt, [k + 1] for [k] rejected lines followed by a valid
    one, which [take_input_terminates] shows is also necessary);
    non-termination is proved for every budget.  The budget is a model
    of the stack, not a bound of the program: [loop_step] is independent
    of it, and [program_loop_step] relates the budgeted loop to it.

    ** What the theorems show
    - Input validation: a valid selection returns its [Choice]
      ([take_input_valid]); an invalid first line never returns a
      [Choice] ([take_input_invalid_never_returns]) and, followed by a
      valid line, ends in a panic ([take_input_invalid_then_valid]): the
      recursive call's result is discarded, contrary to the spec.  The
      number [display_prompt] prints before each option, typed back,
      selects that option ([menu_number_selects]); the selection ignores
      surrounding white space ([parse_choice_pad]).
    - Handlers: exact behaviour on every branch (key present or absent),
      stated through the store lookup: append on create, first-value-only
      replacement on update with the caution when a key has several
      values, removal on delete, listing on select and view all, the
      per-key order of all entries, and that [update_entry] cannot panic
      on its [unwrap]s on a well-formed store.
    - Loop: no exit path ([program_loop_never_returns]); at end of input
      it never finishes ([program_loop_eof]), contrary to the spec.
    - Refinement: the handlers and the loop implement the spec's store
      and commands on the insertion log, a forward and a backward
      simulation from the empty store on the same console input; View All
      lists exactly the log's entries, in some order.
    - Sequences (spec section 8): insertion order and multiplicity,
      first-value replacement, and [NotFound] after removal, each as a
      Create/Update/Delete run followed by a Select on the same console.
    - Termination: on a finite input the loop completes at most as many
      iterations as there are lines; the retry chain needs exactly one
      call per line read.
    - Typing of the store: every stored key and value is trimmed, in
      every reachable state.
    - Safety: without read errors, every panic of the whole loop is one
      of [convert_choice], in a reachable iteration whose selection line
      was rejected.

    ** Not modelled
    Failures of writes and [flush] to stdout (a closed stdout; the model's
    writes always succeed), signals, and the stack overflow itself (a run
    that exceeds every budget stands for it).  A line that is not valid
    UTF-8 is not decoded: [read_line] rejects it, and the model's
    [ReadError] stands for it as for any other read error.  The [multimap] crate and the Rust
    standard library are modelled from their documentation, not from
    their sources.

    ** Plan for the next sittings
    The end-of-input behaviour of the other handlers; a second
    [MultiMapLaws] instance on association lists; the menu's output as a
    whole transcript of a session. *)

From Stdlib Require Export ZArith Ascii String.
From stdpp Require Export base gmap strings list fin_maps.

(** ** Outcomes of a run

    A Rust computation of the program either returns a value ([Done]),
    panics with a message ([Panic]: [unwrap], [expect], arithmetic
    overflow in a debug build), or exceeds the call-depth budget given to
    the model ([NoFuel]: the model of the source's unbounded recursion).
    Each outcome carries the state reached. *)
Inductive outcome (S A : Type) : Type :=
  | Done (a : A) (s : S)
  | Panic (msg : string) (s : S)
  | NoFuel (s : S).
Arguments Done {S A} a s.
Arguments Panic {S A} msg s.
Arguments NoFuel {S A} s.

Definition state_of {S A} (o : outcome S A) : S :=
  match o with Done _ s | Panic _ s | NoFuel s => s end.

(** ** The process monad: explicit state passing with panics *)
Definition M (S A : Type) : Type := S -> outcome S A.

Definition ret {S A} (a : A) : M S A := fun s => Done a s.

Definition bind {S A B} (m : M S A) (k : A -> M S B) : M S B :=
  fun s =>
    match m s with
    | Done a s' => k a s'
    | Panic msg s' => Panic msg s'
    | NoFuel s' => NoFuel s'
    end.

Definition panic {S A} (msg : string) : M S A := fun s => Panic msg s.
Definition out_of_fuel {S A} : M S A := fun s => NoFuel s.
Definition gets {S A} (f : S -> A) : M S A := fun s => Done (f s) s.
Definition modify {S} (f : S -> S) : M S unit := fun s => Done tt (f s).

(** The combinators unfold under [simpl] and [cbn] once applied to a state. *)
Arguments ret {S A} a _ /.
Arguments bind {S A B} m k _ /.
Arguments panic {S A} msg _ /.
Arguments out_of_fuel {S A} _ /.
Arguments gets {S A} f _ /.
Arguments modify {S} f _ /.

Declare Scope rs_scope.
Delimit Scope rs_scope with rs.
Notation "x <- m ;; k" := (bind m (fun x => k))
  (at level 100, m at next level, right associativity) : rs_scope.
Notation "m ;; k" := (bind m (fun _ => k))
  (at level 100, right associativity) : rs_scope.
Open Scope rs_scope.

(** Rust's [Option::unwrap] and [Option::expect]: the panic message of
    [unwrap] is the one of the Rust core library. *)
Definition unwrap_msg : string := "called `Option::unwrap()` on a `None` value".

Definition expect {S A} (msg : string) (o : option A) : M S A :=
  match o with Some a => ret a | None => panic msg end.

Definition unwrap {S A} (o : option A) : M S A := expect unwrap_msg o.

(** A Rust [for x in l { f(x) }] loop over a finite sequence. *)
Fixpoint for_each {S A} (l : list A) (f : A -> M S unit) : M S unit :=
  match l with
  | [] => ret tt
  | x :: l' => f x ;; for_each l' f
  end.

(** ** Generic list helpers shared by the components *)

(** The non-empty vector view: [None] for the empty sequence. *)
Definition vec_of {A} (l : list A) : option (list A) :=
  match l with [] => None | _ => Some l end.

(** Overwrite the first element, as [*v.get_mut(0).unwrap() = x] does. *)
Definition replace_head {A} (x : A) (l : list A) : list A :=
  match l with [] => [] | _ :: l' => x :: l' end.

(** ** Automation *)
Create HintDb rs.
Create Rewrite HintDb rs.

(** ** Lemmas on the monad *)
Section monad_lemmas.
Context {S A B : Type}.
Implicit Types (m : M S A) (k : A -> M S B) (s : S).

Lemma bind_Done m k s a s' : m s = Done a s' -> bind m k s = k a s'.
Proof. unfold bind. by intros ->. Qed.

Lemma bind_Panic m k s msg s' : m s = Panic msg s' -> bind m k s = Panic msg s'.
Proof. unfold bind. by intros ->. Qed.

Lemma bind_NoFuel m k s s' : m s = NoFuel s' -> bind m k s = NoFuel s'.
Proof. unfold bind. by intros ->. Qed.

Lemma bind_ret_l (a : A) k s : bind (ret a) k s = k a s.
Proof. reflexivity. Qed.

Lemma bind_assoc {C} m k (h : B -> M S C) s :
  bind (bind m k) h s = bind m (fun a => bind (k a) h) s.
Proof. unfold bind. by destruct (m s). Qed.

(** A sequence panics in its first part, or in its continuation after the
    first part returned. *)
Lemma bind_Panic_inv m k s msg s' :
  bind m k s = Panic msg s' ->
  m s = Panic msg s' \/ exists a s1, m s = Done a s1 /\ k a s1 = Panic msg s'.
Proof. unfold bind. destruct (m s) as [a s1|m1 s1|s1]; intros Hb; simplify_eq; eauto. Qed.

(** A continuation that never returns makes the whole never return. *)
Lemma bind_never_Done m k s :
  (forall a s1 b s2, k a s1 <> Done b s2) ->
  forall b s2, bind m k s <> Done b s2.
Proof. unfold bind. intros Hk b s2. destruct (m s); [apply Hk | done..]. Qed.
End monad_lemmas.

Lemma vec_of_None {A} (l : list A) : vec_of l = None <-> l = [].
Proof. by destruct l. Qed.

#[export] Hint Rewrite @bind_ret_l @bind_assoc : rs.
#[export] Hint Resolve bind_Done bind_Panic bind_NoFuel : rs.

Lemma flat_map_ext_elem {A B} (f g : A -> list B) (l : list A) :
  (forall x, x ∈ l -> f x = g x) -> flat_map f l = flat_map g l.
Proof.
  induction l as [|x l IH]; intros Hfg; [done|]. simpl.
  rewrite Hfg by (apply elem_of_cons; by left). f_equal. apply IH. intros y Hy. apply Hfg, elem_of_cons. by right.
Qed.

(** ** Strings: append and reversal

    stdpp declares [String.append] ([+:+]) [simpl never]; these are its
    equations and those of [String.rev]. *)
Lemma string_app_cons c s t : String c s +:+ t = String c (s +:+ t).
Proof. reflexivity. Qed.

Lemma string_app_nil_l t : EmptyString +:+ t = t.
Proof. reflexivity. Qed.

Lemma string_app_nil_r s : s +:+ EmptyString = s.
Proof. induction s as [|c s IH]; [done|]. by rewrite string_app_cons, IH. Qed.

Lemma string_app_assoc s t u : s +:+ (t +:+ u) = (s +:+ t) +:+ u.
Proof. induction s as [|c s IH]; [done|]. by rewrite !string_app_cons, IH. Qed.

Lemma string_length_app s t : String.length (s +:+ t) = String.length s + String.length t.
Proof. induction s as [|c s IH]; [done|]. rewrite string_app_cons. simpl. by rewrite IH. Qed.

Lemma string_rev_app_spec s t : String.rev_app s t = String.rev s +:+ t.
Proof.
  revert t. induction s as [|c s IH]; intros t; [done|]. unfold String.rev. simpl.
  rewrite (IH (String c t)), (IH (String c EmptyString)), <- string_app_assoc. done.
Qed.

Lemma string_rev_cons c s : String.rev (String c s) = String.rev s +:+ String c EmptyString.
Proof. unfold String.rev at 1. simpl. apply string_rev_app_spec. Qed.

Lemma string_rev_app s t : String.rev (s +:+ t) = String.rev t +:+ String.rev s.
Proof.
  induction s as [|c s IH].
  - by rewrite string_app_nil_l, string_app_nil_r.
  - by rewrite string_app_cons, !string_rev_cons, IH, string_app_assoc.
Qed.

Lemma string_rev_involutive s : String.rev (String.rev s) = s.
Proof.
  induction s as [|c s IH]; [done|].
  by rewrite string_rev_cons, string_rev_app, IH.
Qed.

#[export] Hint Rewrite string_app_cons string_app_nil_l string_app_nil_r : rs.
