(* ===== verification/RustStr.v ===== *)
(** * Rust standard-library text functions called by [src/main.rs]

    The program reads every line with [read_line], trims it with
    [str::trim] ([Trim.v]), parses the menu selection with [str::parse::<i32>]
    (that is [i32::from_str]) and prints the menu numbers with the
    [Display] implementation of [usize].  None of these is code of the
    repository: they are modelled from the documented behaviour of the
    Rust standard library; a [string] is the sequence of bytes of the
    UTF-8 text.  [str::trim] has its own file, [Trim.v].

    [i32] values are integers [Z] kept inside [[i32_min, i32_max]]: the
    checked operations [i32_checked_mul], [i32_checked_add],
    [i32_checked_sub] return [None] exactly where Rust's [checked_*]
    methods do. *)

From S2P Require Import Prelude.
From Stdlib Require Import DecimalString DecimalNat.

(** ** Machine integers of width 32 *)
Definition i32_min : Z := - 2 ^ 31.
Definition i32_max : Z := 2 ^ 31 - 1.

Definition in_i32 (z : Z) : bool := (i32_min <=? z)%Z && (z <=? i32_max)%Z.

Definition i32_of_Z (z : Z) : option Z := if in_i32 z then Some z else None.

Definition i32_checked_mul (a b : Z) : option Z := i32_of_Z (a * b).
Definition i32_checked_add (a b : Z) : option Z := i32_of_Z (a + b).
Definition i32_checked_sub (a b : Z) : option Z := i32_of_Z (a - b).

(** [usize::try_into::<i32>()]: fails above [i32::MAX]. *)
Definition usize_try_into_i32 (n : nat) : option Z := i32_of_Z (Z.of_nat n).

(** ** [i32::from_str] (radix 10) *)

(** The kinds of [core::num::ParseIntError]. *)
Inductive IntErrorKind := Empty | InvalidDigit | PosOverflow | NegOverflow.

(** [char::to_digit(10)]. *)
Definition to_digit (c : ascii) : option Z :=
  let n := nat_of_ascii c in
  if (48 <=? n) && (n <=? 57) then Some (Z.of_nat (n - 48)) else None.

(** The digit loop of [from_str_radix]: for each character, the digit is
    checked first, then [result.checked_mul(10)], then [checked_add] (for
    a positive number) or [checked_sub] (for a negative one). *)
Fixpoint accumulate (is_positive : bool) (acc : Z) (s : string) : Z + IntErrorKind :=
  match s with
  | EmptyString => inl acc
  | String c r =>
      let overflow := if is_positive then PosOverflow else NegOverflow in
      match to_digit c with
      | None => inr InvalidDigit
      | Some d =>
          match i32_checked_mul acc 10 with
          | None => inr overflow
          | Some m =>
              match (if is_positive then i32_checked_add m d else i32_checked_sub m d) with
              | None => inr overflow
              | Some a => accumulate is_positive a r
              end
          end
      end
  end.

(** The sign handling of [from_str_radix]: an empty string is [Empty], a
    lone sign is [InvalidDigit], a leading [+] or [-] is consumed. *)
Definition from_str_i32 (s : string) : Z + IntErrorKind :=
  match s with
  | EmptyString => inr Empty
  | String c r =>
      if (Ascii.eqb c "+" || Ascii.eqb c "-")%char && String.eqb r EmptyString
      then inr InvalidDigit
      else if Ascii.eqb c "+"%char then accumulate true 0 r
      else if Ascii.eqb c "-"%char then accumulate false 0 r
      else accumulate true 0 s
  end.

(** [match s.parse::<i32>() { Ok(n) => Some(n), Err(_) => None }]. *)
Definition result_ok {A E} (r : A + E) : option A :=
  match r with inl a => Some a | inr _ => None end.

(** A reference definition of decimal parsing: the exact value of the
    digit string by Horner's rule, then one range check. *)
Fixpoint horner (acc : Z) (s : string) : option Z :=
  match s with
  | EmptyString => Some acc
  | String c r => match to_digit c with
                  | None => None
                  | Some d => horner (acc * 10 + d) r
                  end
  end.

Definition parse_i32_spec (s : string) : option Z :=
  let '(sgn, ds) :=
    match s with
    | String c r => if Ascii.eqb c "+"%char then (1%Z, r)
                    else if Ascii.eqb c "-"%char then ((-1)%Z, r)
                    else (1%Z, s)
    | EmptyString => (1%Z, s)
    end in
  match ds with
  | EmptyString => None
  | _ => match horner 0 ds with
         | Some v => i32_of_Z (sgn * v)
         | None => None
         end
  end.

(** ** [Display] for [usize] *)
Definition fmt_usize (n : nat) : string := NilEmpty.string_of_uint (Nat.to_uint n).

(** ** Lemmas *)

Lemma in_i32_spec z : in_i32 z = true <-> (i32_min <= z <= i32_max)%Z.
Proof. unfold in_i32. rewrite andb_true_iff, !Z.leb_le. done. Qed.

Lemma i32_of_Z_Some z v : i32_of_Z z = Some v <-> v = z /\ (i32_min <= z <= i32_max)%Z.
Proof.
  unfold i32_of_Z. rewrite <- in_i32_spec.
  destruct (in_i32 z); split; intros H; simplify_eq; [done|by destruct H as [-> _]|..];
    by destruct H.
Qed.

Lemma i32_of_Z_None z : i32_of_Z z = None <-> ~ (i32_min <= z <= i32_max)%Z.
Proof.
  unfold i32_of_Z. rewrite <- in_i32_spec.
  destruct (in_i32 z); split; intros H; done.
Qed.

#[export] Hint Rewrite i32_of_Z_Some i32_of_Z_None : rs.

Lemma to_digit_range c d : to_digit c = Some d -> (0 <= d <= 9)%Z.
Proof.
  unfold to_digit. destruct (_ && _) eqn:E; intros H; simplify_eq.
  apply andb_true_iff in E as [E1 E2]. apply Nat.leb_le in E1, E2. lia.
Qed.

(** Horner's rule only grows on non-negative accumulators. *)
Lemma horner_ge acc s v : (0 <= acc)%Z -> horner acc s = Some v -> (acc <= v)%Z.
Proof.
  revert acc. induction s as [|c r IH]; intros acc Hacc H; simpl in H; [by simplify_eq|].
  destruct (to_digit c) as [d|] eqn:Hd; [|done].
  pose proof (to_digit_range _ _ Hd). apply IH in H; lia.
Qed.

(** The sign a loop [accumulate is_positive] works with. *)
Definition sign_of (is_positive : bool) : Z := if is_positive then 1%Z else (-1)%Z.

(** The checked loop computes Horner's value and fails exactly when the
    signed value leaves the [i32] range. *)
Lemma accumulate_horner is_positive a r :
  (0 <= a)%Z -> (i32_min <= sign_of is_positive * a <= i32_max)%Z ->
  result_ok (accumulate is_positive (sign_of is_positive * a) r) =
  match horner a r with
  | Some v => i32_of_Z (sign_of is_positive * v)
  | None => None
  end.
Proof.
  revert a. induction r as [|c r IH]; intros a Ha Hrange; simpl.
  { symmetry. apply i32_of_Z_Some. done. }
  destruct (to_digit c) as [d|] eqn:Hd; [|done].
  pose proof (to_digit_range _ _ Hd).
  unfold i32_checked_mul, i32_checked_add, i32_checked_sub.
  destruct (horner (a * 10 + d) r) as [v|] eqn:Hv.
  - pose proof (horner_ge (a * 10 + d) r v ltac:(lia) Hv).
    destruct (i32_of_Z (sign_of is_positive * a * 10)) as [m|] eqn:Hm;
      [apply i32_of_Z_Some in Hm as [-> Hm]|apply i32_of_Z_None in Hm].
    + destruct is_positive; simpl in *;
        match goal with
        | |- context [i32_of_Z ?e] =>
            destruct (i32_of_Z e) as [x|] eqn:Hx;
            [apply i32_of_Z_Some in Hx as [-> Hx]|apply i32_of_Z_None in Hx]
        end.
      * replace (1 * a * 10 + d)%Z with (1 * (a * 10 + d))%Z by lia.
        rewrite IH, Hv by lia. done.
      * symmetry. apply i32_of_Z_None. lia.
      * replace (-1 * a * 10 - d)%Z with (-1 * (a * 10 + d))%Z by lia.
        rewrite IH, Hv by lia. done.
      * symmetry. apply i32_of_Z_None. lia.
    + symmetry. apply i32_of_Z_None. destruct is_positive; simpl in *; lia.
  - destruct (i32_of_Z (sign_of is_positive * a * 10)) as [m|] eqn:Hm;
      [apply i32_of_Z_Some in Hm as [-> Hm]|done].
    destruct is_positive; simpl in *;
      match goal with
      | |- context [i32_of_Z ?e] =>
          destruct (i32_of_Z e) as [x|] eqn:Hx;
          [apply i32_of_Z_Some in Hx as [-> Hx]|done]
      end.
    + replace (1 * a * 10 + d)%Z with (1 * (a * 10 + d))%Z by lia.
      rewrite IH, Hv by lia. done.
    + replace (-1 * a * 10 - d)%Z with (-1 * (a * 10 + d))%Z by lia.
      rewrite IH, Hv by lia. done.
Qed.

Lemma result_ok_inl {A E} (r : A + E) a : result_ok r = Some a <-> r = inl a.
Proof. destruct r; simpl; split; intros H; simplify_eq; done. Qed.

Lemma accumulate_from_zero is_positive r :
  result_ok (accumulate is_positive 0 r) =
  match horner 0 r with Some v => i32_of_Z (sign_of is_positive * v) | None => None end.
Proof.
  pose proof (accumulate_horner is_positive 0 r) as H.
  rewrite Z.mul_0_r in H. apply H; [lia|]. unfold i32_min, i32_max. lia.
Qed.

(** [i32::from_str] as the program calls it (errors erased, as the
    [match] on line 45 erases them) agrees on every string with the
    reference parser: an optional sign, a non-empty digit string, its
    exact value, one range check.  The checked digit loop is an optimised
    form of that definition. *)
Theorem from_str_i32_spec (s : string) :
  result_ok (from_str_i32 s) = parse_i32_spec s.
Proof.
  destruct s as [|c r]; [done|]. unfold from_str_i32, parse_i32_spec.
  destruct (Ascii.eqb c "+") eqn:Hp; [|destruct (Ascii.eqb c "-") eqn:Hm];
    cbn -[accumulate horner i32_of_Z].
  - destruct r; [done|]. apply (accumulate_from_zero true).
  - destruct r; [done|]. apply (accumulate_from_zero false).
  - apply (accumulate_from_zero true (String c r)).
Qed.

Lemma horner_string_of_uint u a :
  horner (Z.of_nat a) (NilEmpty.string_of_uint u) = Some (Z.of_nat (Nat.of_uint_acc u a)).
Proof.
  revert a. induction u; intros a; [done|..];
    simpl; rewrite <- IHu; f_equal; rewrite ?Nat.tail_mul_spec; lia.
Qed.

Lemma to_uint_not_Nil n : Nat.to_uint n <> Decimal.Nil.
Proof.
  intros H. pose proof (Unsigned.of_to n) as E. rewrite H in E.
  simpl in E. subst n. discriminate H.
Qed.

(** Printing a [usize] with [Display] and parsing it back with
    [i32::from_str] gives the number back, for every number within the
    [i32] range. *)
Theorem fmt_usize_roundtrip (n : nat) :
  (Z.of_nat n <= i32_max)%Z -> from_str_i32 (fmt_usize n) = inl (Z.of_nat n).
Proof.
  intros Hn. apply result_ok_inl. rewrite from_str_i32_spec.
  unfold parse_i32_spec, fmt_usize.
  pose proof (horner_string_of_uint (Nat.to_uint n) 0) as Hh.
  change (Nat.of_uint_acc (Nat.to_uint n) 0) with (Nat.of_uint (Nat.to_uint n)) in Hh.
  rewrite (Unsigned.of_to n) in Hh.
  pose proof (to_uint_not_Nil n) as Hnil.
  change (Z.of_nat 0) with 0%Z in Hh.
  destruct (Nat.to_uint n); [done|..]; cbn [NilEmpty.string_of_uint] in Hh |- *;
    cbn -[horner i32_of_Z]; rewrite Hh; apply i32_of_Z_Some; unfold i32_min; lia.
Qed.

(** A value produced by [i32::from_str] is within the [i32] range. *)
Theorem from_str_i32_bounds (s : string) (z : Z) :
  from_str_i32 s = inl z -> (i32_min <= z <= i32_max)%Z.
Proof.
  intros H. apply result_ok_inl in H. rewrite from_str_i32_spec in H.
  unfold parse_i32_spec in H. repeat case_match; simplify_eq;
    by apply i32_of_Z_Some in H as [-> ?].
Qed.
