(* ===== verification/Trim.v ===== *)
(** * [str::trim] on UTF-8 text

    A Rust [String] is UTF-8; the model's [string] is its sequence of
    bytes.  [str::trim] removes the leading and trailing characters for
    which [char::is_whitespace] holds, the Unicode property White_Space:
    six characters encoded on one byte (U+0009 to U+000D and U+0020), two
    on two bytes (U+0085, U+00A0: [C2 85], [C2 A0]) and seventeen on three
    bytes (U+1680, U+2000 to U+200A, U+2028, U+2029, U+202F, U+205F,
    U+3000).  [ws_prefix] recognises one such character at the start of a
    byte string and [strip] removes them while there are some; both are
    parametrised by the byte patterns, so that the same definitions, read
    on the reversed string with the reversed patterns, remove the
    trailing characters ([trim_end]).  On valid UTF-8, which every Rust
    [String] is, a pattern matched at the end of the text is the last
    character, because the first byte of every pattern is a leading byte
    and the others are continuation bytes.

    The theorems: [trim] removes exactly the white space at both ends
    ([trim_spec]), ignores white space added at either end ([trim_pad]),
    and is idempotent ([trim_idem]). *)

From S2P Require Import Prelude RustStr.
From Stdlib Require Import DecimalString.

(** ** The White_Space characters, byte by byte *)

(** Encoded on one byte: tab, line feed, vertical tab, form feed,
    carriage return and space. *)
Definition is_whitespace (c : ascii) : bool :=
  let n := nat_of_ascii c in (n =? 32) || ((9 <=? n) && (n <=? 13)).

(** Encoded on two bytes: U+0085 and U+00A0. *)
Definition is_whitespace2 (b0 b1 : ascii) : bool :=
  (nat_of_ascii b0 =? 194) && ((nat_of_ascii b1 =? 133) || (nat_of_ascii b1 =? 160)).

(** Encoded on three bytes: U+1680; U+2000 to U+200A, U+2028, U+2029,
    U+202F; U+205F; U+3000. *)
Definition is_whitespace3 (b0 b1 b2 : ascii) : bool :=
  let x := nat_of_ascii b0 in
  let y := nat_of_ascii b1 in
  let z := nat_of_ascii b2 in
  ((x =? 225) && (y =? 154) && (z =? 128)) ||
  ((x =? 226) && (y =? 128) &&
     (((128 <=? z) && (z <=? 138)) || (z =? 168) || (z =? 169) || (z =? 175))) ||
  ((x =? 226) && (y =? 129) && (z =? 159)) ||
  ((x =? 227) && (y =? 128) && (z =? 128)).

(** A UTF-8 continuation byte, [10xxxxxx]. *)
Definition is_continuation (c : ascii) : bool :=
  let n := nat_of_ascii c in (128 <=? n) && (n <=? 191).

(** ** Removing white-space characters at the start of a byte string *)
Section strip.
Context (ws1 : ascii -> bool) (ws2 : ascii -> ascii -> bool)
        (ws3 : ascii -> ascii -> ascii -> bool).

(** The rest of [s] after its first character, when that character is
    white space; the patterns are tried shortest first. *)
Definition ws_prefix (s : string) : option string :=
  match s with
  | EmptyString => None
  | String b0 r0 =>
      if ws1 b0 then Some r0 else
      match r0 with
      | EmptyString => None
      | String b1 r1 =>
          if ws2 b0 b1 then Some r1 else
          match r1 with
          | EmptyString => None
          | String b2 r2 => if ws3 b0 b1 b2 then Some r2 else None
          end
      end
  end.

Fixpoint strip (s : string) : string :=
  match s with
  | EmptyString => EmptyString
  | String b0 r0 =>
      if ws1 b0 then strip r0 else
      match r0 with
      | EmptyString => s
      | String b1 r1 =>
          if ws2 b0 b1 then strip r1 else
          match r1 with
          | EmptyString => s
          | String b2 r2 => if ws3 b0 b1 b2 then strip r2 else s
          end
      end
  end.

Lemma strip_unfold s : strip s = match ws_prefix s with Some r => strip r | None => s end.
Proof.
  destruct s as [|b0 [|b1 [|b2 r]]]; simpl; [done|by destruct (ws1 b0)|..].
  - by destruct (ws1 b0), (ws2 b0 b1).
  - by destruct (ws1 b0), (ws2 b0 b1), (ws3 b0 b1 b2).
Qed.

Lemma ws_prefix_split s r :
  ws_prefix s = Some r -> exists c, s = c +:+ r /\ ws_prefix c = Some EmptyString.
Proof.
  destruct s as [|b0 [|b1 [|b2 r']]]; simpl; [done|..];
    repeat match goal with |- context [if ?b then _ else _] => destruct b eqn:? end;
    intros; simplify_eq.
  all: first [exists (String b0 EmptyString); split; [reflexivity|]
             | exists (String b0 (String b1 EmptyString)); split; [reflexivity|]
             | exists (String b0 (String b1 (String b2 EmptyString))); split; [reflexivity|]];
    simpl; repeat match goal with H : ?b = _ |- context [if ?b then _ else _] => rewrite H end;
    done.
Qed.

Lemma ws_prefix_length s r : ws_prefix s = Some r -> String.length r < String.length s.
Proof.
  intros (c & -> & Hc)%ws_prefix_split. rewrite string_length_app.
  destruct c; [done|simpl; lia].
Qed.

(** A character recognised in [s] is recognised in [s] followed by
    anything: the patterns tried before it are shorter. *)
Lemma ws_prefix_app s r t : ws_prefix s = Some r -> ws_prefix (s +:+ t) = Some (r +:+ t).
Proof.
  destruct s as [|b0 [|b1 [|b2 r']]]; autorewrite with rs; simpl; [done|..];
    repeat match goal with |- context [if ?b then _ else _] => destruct b eqn:? end;
    intros; simplify_eq; done.
Qed.

Lemma strip_ind (P : string -> Prop) :
  (forall s, (forall t, String.length t < String.length s -> P t) -> P s) -> forall s, P s.
Proof.
  intros Hstep. apply (Wf_nat.induction_ltof1 _ String.length).
  exact Hstep.
Qed.

(** White space followed by anything strips to what follows. *)
Lemma strip_app_ws w t : strip w = EmptyString -> strip (w +:+ t) = strip t.
Proof.
  revert w. apply (strip_ind (fun w => strip w = EmptyString -> strip (w +:+ t) = strip t)).
  intros w IH. rewrite (strip_unfold w). destruct (ws_prefix w) as [r|] eqn:Hw.
  - intros Hr. rewrite strip_unfold, (ws_prefix_app _ _ _ Hw).
    apply IH; [by apply ws_prefix_length|done].
  - by intros ->.
Qed.

Lemma strip_no_prefix s : ws_prefix (strip s) = None.
Proof.
  revert s. apply strip_ind. intros s IH. rewrite strip_unfold.
  destruct (ws_prefix s) as [r|] eqn:Hs; [by apply IH, ws_prefix_length|done].
Qed.

Lemma strip_id s : ws_prefix s = None -> strip s = s.
Proof. intros Hs. by rewrite strip_unfold, Hs. Qed.

(** [strip s] is [s] without a prefix made of white space. *)
Lemma strip_decomp s : exists w, strip w = EmptyString /\ s = w +:+ strip s.
Proof.
  revert s. apply strip_ind. intros s IH. rewrite (strip_unfold s).
  destruct (ws_prefix s) as [r|] eqn:Hs; [|by exists EmptyString].
  destruct (IH r (ws_prefix_length _ _ Hs)) as [w [Hw Hr]].
  destruct (ws_prefix_split _ _ Hs) as (c & -> & Hc).
  exists (c +:+ w). split.
  - rewrite strip_app_ws; [done|]. by rewrite strip_unfold, Hc.
  - by rewrite <- string_app_assoc, <- Hr.
Qed.

(** What follows a string that does not start with white space cannot
    complete a pattern begun in it, when the patterns' later bytes are
    continuation bytes and their first bytes are not. *)
Section no_crossing.
Hypothesis cont2 : forall a b, ws2 a b = true -> is_continuation b = true.
Hypothesis cont3 : forall a b c, ws3 a b c = true ->
  is_continuation b = true /\ is_continuation c = true.
Hypothesis lead : forall b t r, ws_prefix (String b t) = Some r -> is_continuation b = false.

Lemma ws_prefix_app_None s b t :
  s <> EmptyString -> ws_prefix s = None -> is_continuation b = false ->
  ws_prefix (s +:+ String b t) = None.
Proof.
  intros Hne Hs Hb. destruct s as [|b0 [|b1 [|b2 r]]]; [done|..]; autorewrite with rs; simpl in *.
  - destruct (ws1 b0); [done|].
    destruct (ws2 b0 b) eqn:H2; [by rewrite (cont2 _ _ H2) in Hb|].
    destruct t as [|b' t]; [done|].
    destruct (ws3 b0 b b') eqn:H3; [|done]. by destruct (cont3 _ _ _ H3) as [Hc _]; rewrite Hc in Hb.
  - destruct (ws1 b0); [done|]. destruct (ws2 b0 b1); [done|].
    destruct (ws3 b0 b1 b) eqn:H3; [|done]. by destruct (cont3 _ _ _ H3) as [_ Hc]; rewrite Hc in Hb.
  - by destruct (ws1 b0), (ws2 b0 b1), (ws3 b0 b1 b2).
Qed.

(** Stripping [s] followed by white space [w]. *)
Lemma strip_app_r s w :
  strip w = EmptyString -> strip s <> EmptyString -> strip (s +:+ w) = strip s +:+ w.
Proof.
  intros Hw. revert s. apply (strip_ind (fun s => strip s <> EmptyString ->
                                        strip (s +:+ w) = strip s +:+ w)).
  intros s IH Hs. rewrite (strip_unfold s) in Hs |- *.
  destruct (ws_prefix s) as [r|] eqn:Hp.
  - rewrite strip_unfold, (ws_prefix_app _ _ _ Hp). by apply IH; [apply ws_prefix_length|].
  - destruct w as [|b t]; [by rewrite !string_app_nil_r, strip_id|].
    rewrite strip_unfold, ws_prefix_app_None; [done|done|done|].
    rewrite strip_unfold in Hw. destruct (ws_prefix (String b t)) eqn:Hb; [|done].
    by eapply lead.
Qed.
End no_crossing.
End strip.

(** A string that strips to nothing from the front strips to nothing from
    the back, when every single character that strips from the front
    strips, reversed, with the other patterns. *)
Lemma strip_rev_transfer (a1 : ascii -> bool) (a2 : ascii -> ascii -> bool)
    (a3 : ascii -> ascii -> ascii -> bool) (b1 : ascii -> bool) (b2 : ascii -> ascii -> bool)
    (b3 : ascii -> ascii -> ascii -> bool) :
  (forall c, ws_prefix a1 a2 a3 c = Some EmptyString -> strip b1 b2 b3 (String.rev c) = EmptyString) ->
  forall w, strip a1 a2 a3 w = EmptyString -> strip b1 b2 b3 (String.rev w) = EmptyString.
Proof.
  intros Hc. apply (strip_ind (fun w => strip a1 a2 a3 w = EmptyString ->
                                        strip b1 b2 b3 (String.rev w) = EmptyString)).
  intros w IH. rewrite strip_unfold. destruct (ws_prefix a1 a2 a3 w) as [r|] eqn:Hw; [|by intros ->].
  intros Hr. destruct (ws_prefix_split _ _ _ _ _ Hw) as (c & -> & Hc1).
  rewrite string_rev_app, strip_app_ws; [by apply Hc|].
  apply IH; [exact (ws_prefix_length _ _ _ _ _ Hw)|done].
Qed.

(** ** [trim_start], [trim_end], [trim] *)

(** The patterns read backwards, last byte first. *)
Definition is_whitespace2_rev (b1 b0 : ascii) : bool := is_whitespace2 b0 b1.
Definition is_whitespace3_rev (b2 b1 b0 : ascii) : bool := is_whitespace3 b0 b1 b2.

Abbreviation ws_fwd := (ws_prefix is_whitespace is_whitespace2 is_whitespace3).
Abbreviation ws_bwd := (ws_prefix is_whitespace is_whitespace2_rev is_whitespace3_rev).
Abbreviation strip_fwd := (strip is_whitespace is_whitespace2 is_whitespace3).
Abbreviation strip_bwd := (strip is_whitespace is_whitespace2_rev is_whitespace3_rev).

(** [str::trim_start] *)
Definition trim_start (s : string) : string := strip_fwd s.

(** [str::trim_end]: the leading white space of the reversed bytes. *)
Definition trim_end (s : string) : string := String.rev (strip_bwd (String.rev s)).

(** [str::trim] *)
Definition trim (s : string) : string := trim_end (trim_start s).

(** A string made of white-space characters only. *)
Definition all_whitespace (w : string) : bool := String.eqb (trim_start w) EmptyString.

Definition starts_with_ws (s : string) : bool := bool_decide (is_Some (ws_fwd s)).
Definition ends_with_ws (s : string) : bool := bool_decide (is_Some (ws_bwd (String.rev s))).

(** ** Facts on the bytes of the patterns *)

(** A decimal digit. *)
Definition is_digit (c : ascii) : bool :=
  let n := nat_of_ascii c in (48 <=? n) && (n <=? 57).

(** Byte facts: every boolean test becomes arithmetic on byte values. *)
Ltac bytes :=
  unfold is_whitespace, is_whitespace2, is_whitespace3, is_whitespace2_rev,
    is_whitespace3_rev, is_continuation, is_digit in *; cbv zeta in *;
  repeat match goal with
  | H : _ && _ = true |- _ => apply andb_true_iff in H as [? ?]
  | H : _ || _ = true |- _ => apply orb_true_iff in H as [? | ?]
  | H : (_ =? _) = true |- _ => apply Nat.eqb_eq in H
  | H : (_ <=? _) = true |- _ => apply Nat.leb_le in H
  | |- _ /\ _ => split
  | |- _ = false => apply not_true_iff_false; intros ?
  | |- _ && _ = true => apply andb_true_iff; split
  | |- (_ <=? _) = true => apply Nat.leb_le
  end; lia.

Section byte_facts.
Implicit Types (a b c : ascii).

Lemma ws2_cont a b : is_whitespace2 a b = true -> is_continuation b = true.
Proof. intros. bytes. Qed.

Lemma ws3_cont a b c :
  is_whitespace3 a b c = true -> is_continuation b = true /\ is_continuation c = true.
Proof. intros. bytes. Qed.

Lemma ws1_not_cont b : is_whitespace b = true -> is_continuation b = false.
Proof. intros. bytes. Qed.

Lemma ws2_lead a b : is_whitespace2 a b = true -> is_continuation a = false /\ is_whitespace a = false.
Proof. intros. bytes. Qed.

Lemma ws3_lead a b c :
  is_whitespace3 a b c = true ->
  is_continuation a = false /\ is_whitespace a = false /\ is_whitespace2 a b = false.
Proof. intros. bytes. Qed.

Lemma cont_not_ws b : is_continuation b = true -> is_whitespace b = false.
Proof. intros. bytes. Qed.

Lemma cont_not_ws2 a b : is_continuation a = true -> is_whitespace2 a b = false.
Proof. intros. bytes. Qed.

Lemma digit_not_ws d x y :
  is_digit d = true ->
  is_whitespace d = false /\ is_whitespace2 d x = false /\ is_whitespace3 d x y = false /\
  is_whitespace2 x d = false /\ is_whitespace3 x y d = false.
Proof. intros. bytes. Qed.
End byte_facts.

(** ** Properties of [trim] *)

Lemma ws_fwd_lead b t r : ws_fwd (String b t) = Some r -> is_continuation b = false.
Proof.
  simpl. destruct (is_whitespace b) eqn:H1; [intros; by apply ws1_not_cont|].
  destruct t as [|b1 [|b2 t]]; [done|..].
  - destruct (is_whitespace2 b b1) eqn:H2; [|done]. intros. by apply (ws2_lead b b1).
  - destruct (is_whitespace2 b b1) eqn:H2; [intros; by apply (ws2_lead b b1)|].
    destruct (is_whitespace3 b b1 b2) eqn:H3; [|done]. intros. by apply (ws3_lead b b1 b2).
Qed.

(** One white-space character, read backwards, is one white-space
    character for the backward patterns, and conversely. *)
Lemma ws_char_fwd_bwd c : ws_fwd c = Some EmptyString -> strip_bwd (String.rev c) = EmptyString.
Proof.
  destruct c as [|b0 [|b1 [|b2 [|b3 r]]]]; cbn -[is_whitespace is_whitespace2 is_whitespace3];
    unfold is_whitespace2_rev, is_whitespace3_rev; [done|..].
  - by destruct (is_whitespace b0) eqn:H0; intros; simplify_eq; rewrite ?H0.
  - destruct (is_whitespace b0); [done|]. destruct (is_whitespace2 b0 b1) eqn:H2; [|done].
    intros _. rewrite (cont_not_ws b1) by by apply (ws2_cont b0). cbn; unfold is_whitespace2_rev; by rewrite ?H2.
  - destruct (is_whitespace b0); [done|]. destruct (is_whitespace2 b0 b1); [done|].
    destruct (is_whitespace3 b0 b1 b2) eqn:H3; [|done]. intros _.
    destruct (ws3_cont _ _ _ H3) as [Hb1 Hb2].
    rewrite (cont_not_ws b2), (cont_not_ws2 b1) by done. cbn; unfold is_whitespace3_rev; by rewrite ?H3.
  - by destruct (is_whitespace b0), (is_whitespace2 b0 b1), (is_whitespace3 b0 b1 b2).
Qed.

Lemma ws_char_bwd_fwd c : ws_bwd c = Some EmptyString -> strip_fwd (String.rev c) = EmptyString.
Proof.
  destruct c as [|b0 [|b1 [|b2 [|b3 r]]]]; cbn -[is_whitespace is_whitespace2 is_whitespace3];
    unfold is_whitespace2_rev, is_whitespace3_rev; [done|..].
  - by destruct (is_whitespace b0) eqn:H0; intros; simplify_eq; rewrite ?H0.
  - destruct (is_whitespace b0); [done|]. destruct (is_whitespace2 b1 b0) eqn:H2; [|done].
    intros _. destruct (ws2_lead _ _ H2) as [_ Hb1]. rewrite Hb1. cbn; unfold is_whitespace2_rev; by rewrite ?H2.
  - destruct (is_whitespace b0); [done|]. destruct (is_whitespace2 b1 b0); [done|].
    destruct (is_whitespace3 b2 b1 b0) eqn:H3; [|done]. intros _.
    destruct (ws3_lead _ _ _ H3) as (_ & Hb2 & H2). rewrite Hb2, H2. cbn; unfold is_whitespace3_rev; by rewrite ?H3.
  - by destruct (is_whitespace b0), (is_whitespace2 b1 b0), (is_whitespace3 b2 b1 b0).
Qed.

Lemma all_whitespace_spec w : all_whitespace w = true <-> trim_start w = EmptyString.
Proof. apply String.eqb_eq. Qed.

Lemma trim_start_app_ws w s : all_whitespace w = true -> trim_start (w +:+ s) = trim_start s.
Proof. intros Hw%all_whitespace_spec. by apply strip_app_ws. Qed.

Lemma trim_end_app_ws s w : all_whitespace w = true -> trim_end (s +:+ w) = trim_end s.
Proof.
  intros Hw%all_whitespace_spec. unfold trim_end. rewrite string_rev_app, strip_app_ws; [done|].
  by apply (strip_rev_transfer _ _ _ _ _ _ ws_char_fwd_bwd).
Qed.

Lemma trim_start_app_r s w :
  all_whitespace w = true -> trim_start s <> EmptyString ->
  trim_start (s +:+ w) = trim_start s +:+ w.
Proof.
  intros Hw%all_whitespace_spec. apply strip_app_r; [exact ws2_cont|exact ws3_cont|exact ws_fwd_lead|done].
Qed.

(** [str::trim] ignores white space added at either end of its
    argument: the line terminator read by [read_line] and any white space
    the user typed around a key or value do not reach the store. *)
Theorem trim_pad (w1 s w2 : string) :
  all_whitespace w1 = true -> all_whitespace w2 = true ->
  trim (w1 +:+ s +:+ w2) = trim s.
Proof.
  intros H1 H2. unfold trim. rewrite trim_start_app_ws by done.
  destruct (decide (trim_start s = EmptyString)) as [Hs|Hs].
  - apply all_whitespace_spec in H2. rewrite Hs. unfold trim_start in *.
    rewrite strip_app_ws by done. by rewrite H2.
  - rewrite trim_start_app_r by done. by apply trim_end_app_ws.
Qed.

Lemma trim_pad_r (s w : string) : all_whitespace w = true -> trim (s +:+ w) = trim s.
Proof. intros Hw. apply (trim_pad EmptyString s w); done. Qed.

(** The removed suffix of [trim_end]. *)
Lemma trim_end_decomp s : exists w, all_whitespace w = true /\ s = trim_end s +:+ w.
Proof.
  destruct (strip_decomp is_whitespace is_whitespace2_rev is_whitespace3_rev (String.rev s)) as [w [Hw Hs]].
  exists (String.rev w). split.
  - apply all_whitespace_spec, (strip_rev_transfer _ _ _ _ _ _ ws_char_bwd_fwd), Hw.
  - unfold trim_end. rewrite <- string_rev_app, <- Hs. by rewrite string_rev_involutive.
Qed.

Lemma trim_no_ws_ends s : starts_with_ws (trim s) = false /\ ends_with_ws (trim s) = false.
Proof.
  unfold starts_with_ws, ends_with_ws, trim. split; apply bool_decide_eq_false; intros [r Hr].
  - destruct (trim_end_decomp (trim_start s)) as [w [_ Hw]].
    pose proof (ws_prefix_app _ _ _ _ _ w Hr) as Hr'. rewrite <- Hw in Hr'.
    unfold trim_start in Hr'. by rewrite strip_no_prefix in Hr'.
  - unfold trim_end in Hr. rewrite string_rev_involutive, strip_no_prefix in Hr. done.
Qed.

(** A string with no white space at either end is its own trim. *)
Lemma trim_id s : starts_with_ws s = false -> ends_with_ws s = false -> trim s = s.
Proof.
  unfold starts_with_ws, ends_with_ws. intros Hs%bool_decide_eq_false He%bool_decide_eq_false.
  unfold trim, trim_start, trim_end. rewrite (strip_id _ _ _ s), (strip_id _ _ _ (String.rev s)).
  - apply string_rev_involutive.
  - by destruct (ws_bwd (String.rev s)); [destruct He; eexists|].
  - by destruct (ws_fwd s); [destruct Hs; eexists|].
Qed.

Lemma trim_idem s : trim (trim s) = trim s.
Proof. destruct (trim_no_ws_ends s). by apply trim_id. Qed.

(** [str::trim] removes exactly the white space at both ends: [trim s =
    t] iff [s] is [t] between two runs of white space and [t] neither
    starts nor ends with white space. *)
Theorem trim_spec (s t : string) :
  trim s = t <->
  (exists w1 w2, all_whitespace w1 = true /\ all_whitespace w2 = true /\
                 s = w1 +:+ t +:+ w2) /\
  starts_with_ws t = false /\ ends_with_ws t = false.
Proof.
  split.
  - intros <-. split; [|apply trim_no_ws_ends].
    destruct (strip_decomp is_whitespace is_whitespace2 is_whitespace3 s) as [w1 [Hw1 Hs1]].
    destruct (trim_end_decomp (trim_start s)) as [w2 [Hw2 Hs2]].
    exists w1, w2. split_and!; [by apply all_whitespace_spec|done|]. unfold trim.
    by rewrite <- Hs2.
  - intros [(w1 & w2 & Hw1 & Hw2 & ->) [Hs He]]. rewrite trim_pad by done. by apply trim_id.
Qed.

(** ** Decimal numbers have no white space at their ends *)

Fixpoint all_digits (s : string) : bool :=
  match s with
  | EmptyString => true
  | String c r => is_digit c && all_digits r
  end.

Lemma all_digits_app s t : all_digits (s +:+ t) = all_digits s && all_digits t.
Proof. induction s as [|c s IH]; [done|]. rewrite string_app_cons. simpl. by rewrite IH, andb_assoc. Qed.

Lemma all_digits_rev s : all_digits (String.rev s) = all_digits s.
Proof.
  induction s as [|c s IH]; [done|]. rewrite string_rev_cons, all_digits_app, IH. simpl.
  by rewrite andb_true_r, andb_comm.
Qed.

Lemma all_digits_string_of_uint u : all_digits (NilEmpty.string_of_uint u) = true.
Proof. induction u; [done|..]; cbn [NilEmpty.string_of_uint all_digits]; by rewrite IHu. Qed.

(** A string that starts with a digit starts with no white space, for
    either reading direction of the patterns. *)
Lemma digit_no_prefix d r :
  is_digit d = true -> ws_fwd (String d r) = None /\ ws_bwd (String d r) = None.
Proof.
  intros Hd. destruct r as [|b1 [|b2 r]]; simpl; unfold is_whitespace2_rev, is_whitespace3_rev.
  - by destruct (digit_not_ws d d d Hd) as (-> & _).
  - by destruct (digit_not_ws d b1 b1 Hd) as (-> & -> & _ & -> & _).
  - destruct (digit_not_ws d b1 b2 Hd) as (-> & -> & -> & -> & _).
    by destruct (digit_not_ws d b2 b1 Hd) as (_ & _ & _ & _ & ->).
Qed.

Lemma all_digits_trim s : all_digits s = true -> trim s = s.
Proof.
  intros Hs. apply trim_id; unfold starts_with_ws, ends_with_ws; apply bool_decide_eq_false.
  - destruct s as [|d r]; [by intros []|]. apply andb_true_iff in Hs as [Hd _].
    by rewrite (proj1 (digit_no_prefix d r Hd)); intros [].
  - rewrite <- all_digits_rev in Hs. destruct (String.rev s) as [|d r]; [by intros []|].
    apply andb_true_iff in Hs as [Hd _]. by rewrite (proj2 (digit_no_prefix d r Hd)); intros [].
Qed.

(** The decimal form of a number is its own trim. *)
Lemma trim_fmt_usize n : trim (fmt_usize n) = fmt_usize n.
Proof. apply all_digits_trim, all_digits_string_of_uint. Qed.
