(* ===== verification/MultiMap.v ===== *)
(** * The store: [multimap::MultiMap<String, String>]

    [src/main.rs] keeps its whole database in one value of the external
    crate [multimap] and calls seven of its methods: [MultiMap::new],
    [insert], [contains_key], [get_vec], [get_mut] (followed by a write
    through the returned reference), [remove] and the iteration
    [for (key, values) in &database].  This file states what the program
    relies on as an interface, a class of operations [MultiMapOps] with the
    laws [MultiMapLaws], and implements it with the crate's representation
    ([struct MultiMap { inner: HashMap<K, Vec<V>> }]) on a stdpp [gmap].
    The crate is not code of the repository: the implementation is
    modelled from the crate's documented behaviour.  The handlers of
    [Handlers.v] are proved against the laws only, so their theorems hold
    for any iteration order of the [HashMap]. *)

From S2P Require Import Prelude.

(** ** The interface *)
Class MultiMapOps (T : Type) := {
  mm_new : T;
  mm_insert : string -> string -> T -> T;
  mm_contains_key : string -> T -> bool;
  mm_get_vec : string -> T -> option (list string);
  (** [*map.get_mut(k).unwrap() = v]: [None] when [get_mut] returns
      [None]; otherwise the map after the write. *)
  mm_get_mut_write : string -> string -> T -> option T;
  (** [map.remove(k)]: the removed vector and the map after. *)
  mm_remove : string -> T -> option (list string) * T;
  (** The pairs [(key, values)] in the iteration order of the map. *)
  mm_iter : T -> list (string * list string)
}.

Class MultiMapLaws (T : Type) `{MultiMapOps T} := {
  mm_get_vec_new k : mm_get_vec k mm_new = None;
  mm_get_vec_insert k v m k' :
    mm_get_vec k' (mm_insert k v m) =
    if decide (k = k') then Some (default [] (mm_get_vec k m) ++ [v]) else mm_get_vec k' m;
  mm_contains_key_spec k m : mm_contains_key k m = bool_decide (is_Some (mm_get_vec k m));
  mm_get_mut_write_None k v m :
    mm_get_mut_write k v m = None <-> mm_get_vec k m = None \/ mm_get_vec k m = Some [];
  mm_get_mut_write_Some k v m m' :
    mm_get_mut_write k v m = Some m' ->
    forall k', mm_get_vec k' m' =
               if decide (k = k') then replace_head v <$> mm_get_vec k m else mm_get_vec k' m;
  mm_remove_fst k m : (mm_remove k m).1 = mm_get_vec k m;
  mm_get_vec_remove k m k' :
    mm_get_vec k' (mm_remove k m).2 = if decide (k = k') then None else mm_get_vec k' m;
  mm_iter_NoDup m : NoDup (mm_iter m).*1;
  mm_elem_of_iter m k vs : (k, vs) ∈ mm_iter m <-> mm_get_vec k m = Some vs
}.

(** The store invariant: no key is mapped to an empty vector.  The crate
    removes nothing from a vector through the calls the program makes, so
    a key present in the map always has a first value for [get_mut]. *)
Definition mm_wf {T} `{MultiMapOps T} (m : T) : Prop :=
  forall k vs, mm_get_vec k m = Some vs -> vs <> [].

(** ** The crate's representation on a [gmap] *)
Record MultiMap := { inner : gmap string (list string) }.

Definition MultiMap_new : MultiMap := {| inner := ∅ |}.

(** [match self.inner.entry(k) { Occupied(e) => e.get_vec_mut().push(v),
    Vacant(e) => e.insert_vec(vec![v]) }] *)
Definition MultiMap_insert (k v : string) (m : MultiMap) : MultiMap :=
  match inner m !! k with
  | Some vec => {| inner := <[k := vec ++ [v]]> (inner m) |}
  | None => {| inner := <[k := [v]]> (inner m) |}
  end.

Definition MultiMap_contains_key (k : string) (m : MultiMap) : bool :=
  bool_decide (is_Some (inner m !! k)).

Definition MultiMap_get_vec (k : string) (m : MultiMap) : option (list string) :=
  inner m !! k.

(** [self.inner.get_mut(k)?.get_mut(0)], then the write through it. *)
Definition MultiMap_get_mut_write (k v : string) (m : MultiMap) : option MultiMap :=
  match inner m !! k with
  | Some (_ :: rest) => Some {| inner := <[k := v :: rest]> (inner m) |}
  | _ => None
  end.

Definition MultiMap_remove (k : string) (m : MultiMap) : option (list string) * MultiMap :=
  (inner m !! k, {| inner := delete k (inner m) |}).

Definition MultiMap_iter (m : MultiMap) : list (string * list string) :=
  map_to_list (inner m).

#[export] Instance MultiMap_ops : MultiMapOps MultiMap := {|
  mm_new := MultiMap_new;
  mm_insert := MultiMap_insert;
  mm_contains_key := MultiMap_contains_key;
  mm_get_vec := MultiMap_get_vec;
  mm_get_mut_write := MultiMap_get_mut_write;
  mm_remove := MultiMap_remove;
  mm_iter := MultiMap_iter
|}.

(** ** Consequences of the laws *)
Section laws.
Context `{MultiMapLaws T}.
Implicit Types (m : T) (k v : string).

Lemma mm_get_vec_insert_eq k v m :
  mm_get_vec k (mm_insert k v m) = Some (default [] (mm_get_vec k m) ++ [v]).
Proof. rewrite mm_get_vec_insert. by case_decide. Qed.

Lemma mm_get_vec_insert_ne k k' v m :
  k <> k' -> mm_get_vec k' (mm_insert k v m) = mm_get_vec k' m.
Proof. intros. rewrite mm_get_vec_insert. by case_decide. Qed.

Lemma mm_contains_key_true k m : mm_contains_key k m = true <-> is_Some (mm_get_vec k m).
Proof. rewrite mm_contains_key_spec. apply bool_decide_eq_true. Qed.

Lemma mm_contains_key_false k m : mm_contains_key k m = false <-> mm_get_vec k m = None.
Proof.
  rewrite mm_contains_key_spec, bool_decide_eq_false, <- eq_None_not_Some. done.
Qed.

Lemma mm_get_mut_write_cons k v m x xs :
  mm_get_vec k m = Some (x :: xs) ->
  exists m', mm_get_mut_write k v m = Some m'.
Proof.
  intros Hk. destruct (mm_get_mut_write k v m) as [m'|] eqn:E; [by eauto|].
  apply mm_get_mut_write_None in E. rewrite Hk in E. naive_solver.
Qed.

Lemma mm_wf_new : mm_wf (mm_new : T).
Proof. intros k vs. by rewrite mm_get_vec_new. Qed.

Lemma mm_wf_insert k v m : mm_wf m -> mm_wf (mm_insert k v m).
Proof.
  intros Hwf k' vs. rewrite mm_get_vec_insert. case_decide; [|apply Hwf].
  intros [= <-]. destruct (default [] _); discriminate.
Qed.

Lemma mm_wf_get_mut_write k v m m' :
  mm_wf m -> mm_get_mut_write k v m = Some m' -> mm_wf m'.
Proof.
  intros Hwf Hw k' vs. rewrite (mm_get_mut_write_Some _ _ _ _ Hw).
  case_decide; [|apply Hwf]. subst k'.
  destruct (mm_get_vec k m) as [[|x xs]|] eqn:Hk; simpl; intros Hv; simplify_eq.
  - by apply Hwf in Hk.
  - done.
Qed.

Lemma mm_wf_remove k m : mm_wf m -> mm_wf (mm_remove k m).2.
Proof.
  intros Hwf k' vs. rewrite mm_get_vec_remove. case_decide; [done|apply Hwf].
Qed.
End laws.

#[export] Hint Resolve mm_wf_new mm_wf_insert mm_wf_remove : rs.

#[export] Instance MultiMap_laws : MultiMapLaws MultiMap.
Proof.
  split; simpl; unfold MultiMap_new, MultiMap_insert, MultiMap_contains_key,
    MultiMap_get_vec, MultiMap_get_mut_write, MultiMap_remove, MultiMap_iter; simpl.
  - intros. apply lookup_empty.
  - intros k v m k'. destruct (inner m !! k) eqn:E; simpl;
      rewrite lookup_insert; case_decide; subst; rewrite ?E; done.
  - done.
  - intros k v m. destruct (inner m !! k) as [[|x xs]|]; naive_solver.
  - intros k v m m' Hw k'. destruct (inner m !! k) as [[|x xs]|] eqn:E; simplify_eq; simpl.
    rewrite lookup_insert. case_decide; subst; rewrite ?E; done.
  - done.
  - intros k m k'. rewrite lookup_delete. done.
  - intros m. apply NoDup_fst_map_to_list.
  - intros m k vs. apply elem_of_map_to_list.
Qed.
