(* ===== verification/StoreSpec.v ===== *)
(** * The store of the spec and its refinement by the multimap

    Section 4.1 of the spec describes the store abstractly: [insert]
    appends a value to a key, [lookup] returns the values of a key in
    insertion order or [NotFound], [replace_first] replaces the first
    value of a key, [remove] deletes a key with all its values.  This file
    states that contract on the simplest model that has it, the log of the
    inserted [(key, value)] pairs in insertion order, and proves that any
    store with the [MultiMap] interface implements it: the relation
    [refines db log] (every lookup agrees) holds initially and is
    preserved by each operation, which returns the same answer on both
    sides. *)

From S2P Require Import Prelude MultiMap.

(** ** The abstract store *)
Abbreviation spec_store := (list (string * string)).

Definition spec_empty : spec_store := [].

Definition spec_insert (k v : string) (s : spec_store) : spec_store := s ++ [(k, v)].

(** The values of [k], oldest first. *)
Definition spec_values (k : string) (s : spec_store) : list string :=
  map snd (filter (fun e => e.1 = k) s).

(** [lookup]: [None] is the spec's [NotFound]. *)
Definition spec_lookup (k : string) (s : spec_store) : option (list string) :=
  vec_of (spec_values k s).

Fixpoint spec_replace_first (k v : string) (s : spec_store) : option spec_store :=
  match s with
  | [] => None
  | (k', v') :: s' =>
      if decide (k' = k) then Some ((k', v) :: s')
      else (fun s'' => (k', v') :: s'') <$> spec_replace_first k v s'
  end.

Definition spec_remove (k : string) (s : spec_store) : option spec_store :=
  match spec_lookup k s with
  | None => None
  | Some _ => Some (filter (fun e => e.1 <> k) s)
  end.

(** The multimap [db] represents the log [s]. *)
Definition refines `{MultiMapOps T} (db : T) (s : spec_store) : Prop :=
  forall k, mm_get_vec k db = spec_lookup k s.

(** ** Lemmas on the abstract store *)

Lemma spec_values_app k s1 s2 : spec_values k (s1 ++ s2) = spec_values k s1 ++ spec_values k s2.
Proof. unfold spec_values. by rewrite filter_app, map_app. Qed.

Lemma spec_values_insert k v k' s :
  spec_values k' (spec_insert k v s) = spec_values k' s ++ (if decide (k = k') then [v] else []).
Proof.
  unfold spec_insert. rewrite spec_values_app. unfold spec_values at 2. simpl.
  rewrite filter_cons. simpl. by destruct (decide (k = k')).
Qed.

Lemma default_vec_of (l : list string) : default [] (vec_of l) = l.
Proof. by destruct l. Qed.

Lemma vec_of_snoc (l : list string) v : vec_of (l ++ [v]) = Some (l ++ [v]).
Proof. by destruct l. Qed.

Lemma spec_lookup_insert k v k' s :
  spec_lookup k' (spec_insert k v s) =
  if decide (k = k') then Some (default [] (spec_lookup k s) ++ [v]) else spec_lookup k' s.
Proof.
  unfold spec_lookup. rewrite spec_values_insert.
  destruct (decide (k = k')) as [<-|]; [|by rewrite app_nil_r].
  by rewrite default_vec_of, vec_of_snoc.
Qed.

Lemma spec_values_cons k k1 v1 s :
  spec_values k ((k1, v1) :: s) = if decide (k1 = k) then v1 :: spec_values k s else spec_values k s.
Proof. unfold spec_values. rewrite filter_cons. simpl. by destruct (decide (k1 = k)). Qed.

Lemma spec_replace_first_None k v s :
  spec_replace_first k v s = None <-> spec_values k s = [].
Proof.
  induction s as [|[k' v'] s IH]; simpl; [done|].
  rewrite spec_values_cons. destruct (decide (k' = k)); simpl; [done|].
  rewrite <- IH. by destruct (spec_replace_first k v s).
Qed.

Lemma spec_replace_first_Some k v s s' :
  spec_replace_first k v s = Some s' ->
  forall k', spec_values k' s' =
             if decide (k = k') then replace_head v (spec_values k s) else spec_values k' s.
Proof.
  revert s'. induction s as [|[k1 v1] s IH]; intros s' Hs k'; simpl in Hs; [done|].
  rewrite (spec_values_cons k).
  destruct (decide (k1 = k)) as [->|Hne]; simplify_eq.
  - rewrite !spec_values_cons.
    by destruct (decide (k = k')) as [<-|].
  - destruct (spec_replace_first k v s) as [s1|] eqn:E; simplify_eq/=.
    rewrite !spec_values_cons, (IH s1 eq_refl k').
    destruct (decide (k1 = k')) as [->|]; destruct (decide (k = k')); congruence.
Qed.

Lemma spec_values_remove k k' s :
  spec_values k' (filter (fun e => e.1 <> k) s) = if decide (k = k') then [] else spec_values k' s.
Proof.
  induction s as [|[k1 v1] s IH]; [by destruct (decide (k = k'))|].
  rewrite filter_cons, spec_values_cons. simpl.
  destruct (decide (k1 <> k)); [rewrite spec_values_cons|]; rewrite IH;
    destruct (decide (k1 = k')), (decide (k = k')); subst; done.
Qed.

Lemma spec_lookup_not_empty k s : spec_lookup k s <> Some [].
Proof. unfold spec_lookup. by destruct (spec_values k s). Qed.

Lemma fmap_replace_head_vec_of v (l : list string) :
  replace_head v <$> vec_of l = vec_of (replace_head v l).
Proof. by destruct l. Qed.

(** The pairs of a key, in log order, are its values paired with it. *)
Lemma spec_values_pairs k s :
  map (fun v => (k, v)) (spec_values k s) = filter (fun e => e.1 = k) s.
Proof.
  induction s as [|[k1 v1] s IH]; [done|].
  rewrite spec_values_cons, filter_cons. simpl.
  destruct (decide (k1 = k)) as [->|]; [|done]. simpl. by f_equal.
Qed.

Lemma elem_of_spec_values k v s : (k, v) ∈ s -> v ∈ spec_values k s.
Proof.
  intros Hin. unfold spec_values. apply list_elem_of_fmap.
  exists (k, v). split; [done|]. by apply list_elem_of_filter.
Qed.

(** Grouping the log by key, over any duplicate-free list of keys that
    covers its keys, reorders it: the entries are the same. *)
Lemma spec_grouped (K : list string) s :
  NoDup K -> (forall e, e ∈ s -> e.1 ∈ K) ->
  s ≡ₚ flat_map (fun k => map (fun v => (k, v)) (spec_values k s)) K.
Proof.
  revert s. induction K as [|k K IH]; intros s HK Hs; cbn [flat_map].
  - destruct s as [|e s]; [done|]. destruct (not_elem_of_nil e.1). apply Hs, elem_of_cons. by left.
  - apply NoDup_cons in HK as [Hk HK].
    rewrite spec_values_pairs, <- (filter_app_complement (fun e => e.1 = k) s) at 1.
    apply Permutation_app_head.
    assert (forall e, e ∈ filter (fun e => e.1 <> k) s -> e.1 ∈ K) as Hs'.
    { intros e [He Hin]%list_elem_of_filter. by destruct (proj1 (elem_of_cons _ _ _) (Hs e Hin)). }
    rewrite (IH _ HK Hs'). apply reflexive_eq, flat_map_ext_elem. intros k' Hk'.
    rewrite spec_values_remove, decide_False; [done|]. by intros ->.
Qed.

(** ** The multimap refines the abstract store *)
Section refinement.
Context `{MultiMapLaws T}.
Implicit Types (db : T) (s : spec_store) (k v : string).

Lemma refines_wf db s : refines db s -> mm_wf db.
Proof. intros Href k vs Hk Hvs. subst vs. rewrite Href in Hk. by apply spec_lookup_not_empty in Hk. Qed.

Lemma refines_new : refines (mm_new : T) spec_empty.
Proof. intros k. by rewrite mm_get_vec_new. Qed.

Lemma refines_insert db s k v : refines db s -> refines (mm_insert k v db) (spec_insert k v s).
Proof. intros Href k'. by rewrite mm_get_vec_insert, spec_lookup_insert, !Href. Qed.

Lemma refines_contains_key db s k :
  refines db s -> mm_contains_key k db = bool_decide (is_Some (spec_lookup k s)).
Proof. intros Href. by rewrite mm_contains_key_spec, Href. Qed.

Lemma refines_get_mut_write db s k v :
  refines db s ->
  match mm_get_mut_write k v db, spec_replace_first k v s with
  | Some db', Some s' => refines db' s'
  | None, None => True
  | _, _ => False
  end.
Proof.
  intros Href. destruct (mm_get_mut_write k v db) as [db'|] eqn:Hw.
  - assert (spec_values k s <> []) as Hne.
    { intros Hnil. assert (mm_get_mut_write k v db = None) as Hn; [|congruence].
      apply mm_get_mut_write_None. left. by rewrite Href; unfold spec_lookup; rewrite Hnil. }
    destruct (spec_replace_first k v s) as [s'|] eqn:Hr; [|by apply spec_replace_first_None in Hr].
    intros k'. rewrite (mm_get_mut_write_Some _ _ _ _ Hw), Href. unfold spec_lookup.
    rewrite (spec_replace_first_Some _ _ _ _ Hr). case_decide; subst; [|done].
    apply fmap_replace_head_vec_of.
  - apply mm_get_mut_write_None in Hw. rewrite Href in Hw.
    destruct Hw as [Hw|Hw]; [|by apply spec_lookup_not_empty in Hw].
    unfold spec_lookup in Hw. apply vec_of_None, spec_replace_first_None with (v := v) in Hw.
    by rewrite Hw.
Qed.

Lemma refines_remove db s k :
  refines db s ->
  (mm_remove k db).1 = spec_lookup k s /\
  match spec_remove k s with
  | Some s' => refines (mm_remove k db).2 s'
  | None => spec_lookup k s = None
  end.
Proof.
  intros Href. split; [by rewrite mm_remove_fst, Href|].
  unfold spec_remove. destruct (spec_lookup k s) eqn:E; [|done].
  intros k'. rewrite mm_get_vec_remove, Href. unfold spec_lookup at 2.
  rewrite spec_values_remove. by case_decide.
Qed.
Lemma refines_remove_present db s k vs :
  refines db s -> spec_lookup k s = Some vs ->
  refines (mm_remove k db).2 (filter (fun e => e.1 <> k) s).
Proof.
  intros Href Hk. destruct (refines_remove db s k Href) as [_ Hr].
  unfold spec_remove in Hr. by rewrite Hk in Hr.
Qed.
End refinement.
