(* ===== verification/Console.v ===== *)
(** * Console I/O and the process state

    The state of the running program is its database (a value of any type
    [T] with the [MultiMap] interface), the lines still to be read on
    standard input and the text written so far on standard output.  A
    line of input is either the text one call of [Stdin::read_line]
    returns (its UTF-8 bytes, with the line terminator, if any) or a read
    error: an I/O error or a line that is not valid UTF-8, which
    [read_line] rejects after consuming it.  End of
    input is the empty list: [read_line] then returns [Ok(0)] and leaves
    its buffer empty. Standard output is the list of the chunks written by
    [print!] and [println!], in order; writes and [flush] never fail in
    the model. *)

From S2P Require Import Prelude RustStr MultiMap.

Inductive input := Line (s : string) | ReadError.

Record Proc (T : Type) := mkProc {
  database : T;
  stdin : list input;
  stdout : list string
}.
Arguments mkProc {T} _ _ _.
Arguments database {T} _.
Arguments stdin {T} _.
Arguments stdout {T} _.

(** The line terminator. *)
Definition LF : string := String (ascii_of_nat 10) EmptyString.

Section io.
Context {T : Type}.
Local Abbreviation P := (Proc T).

Definition set_stdout (out : list string) (p : P) : P :=
  mkProc (database p) (stdin p) out.

Definition set_database (db : T) (p : P) : P := mkProc db (stdin p) (stdout p).

(** [print!("{}", s)] *)
Definition print (s : string) : M P unit :=
  modify (fun p => set_stdout (stdout p ++ [s]) p).

(** [println!("{}", s)] *)
Definition println (s : string) : M P unit := print (s +:+ LF).

(** [io::stdout().flush().expect("flush stdout buffer")] *)
Definition flush_stdout : M P unit := ret tt.

(** [io::stdin().read_line(&mut buf)] on a fresh [buf]: [None] is an
    [Err] of the reader. *)
Definition read_line : M P (option string) := fun p =>
  match stdin p with
  | [] => Done (Some EmptyString) p
  | Line s :: rest => Done (Some s) (mkProc (database p) rest (stdout p))
  | ReadError :: rest => Done None (mkProc (database p) rest (stdout p))
  end.

(** [read_line(...).expect(msg)] *)
Definition read_line_expect (msg : string) : M P string :=
  r <- read_line ;; expect msg r.

Definition get_database : M P T := gets database.

Definition put_database (db : T) : M P unit := modify (set_database db).

(** ** Lemmas *)


Lemma read_line_expect_Line msg (p : P) s rest :
  stdin p = Line s :: rest ->
  read_line_expect msg p = Done s (mkProc (database p) rest (stdout p)).
Proof. intros Hin. unfold read_line_expect, bind, read_line. by rewrite Hin. Qed.

Lemma read_line_expect_eof msg (p : P) :
  stdin p = [] -> read_line_expect msg p = Done EmptyString p.
Proof. intros Hin. unfold read_line_expect, bind, read_line. by rewrite Hin. Qed.

Lemma read_line_expect_error msg (p : P) rest :
  stdin p = ReadError :: rest ->
  read_line_expect msg p = Panic msg (mkProc (database p) rest (stdout p)).
Proof. intros Hin. unfold read_line_expect, bind, read_line. by rewrite Hin. Qed.

Lemma read_line_expect_Panic msg (p : P) m p' :
  read_line_expect msg p = Panic m p' -> ReadError ∈ stdin p.
Proof.
  unfold read_line_expect, bind, read_line.
  destruct (stdin p) as [|[s|] rest]; simpl; [done|done|]. intros _. by left.
Qed.

Lemma for_each_println {A} (l : list A) (f : A -> string) (p : P) :
  for_each l (fun x => println (f x)) p =
  Done tt (set_stdout (stdout p ++ map (fun x => f x +:+ LF) l) p).
Proof.
  revert p. induction l as [|x l IH]; intros p; simpl.
  - rewrite app_nil_r. by destruct p.
  - unfold bind, println, print, modify. rewrite IH. simpl. by rewrite <- app_assoc.
Qed.
End io.

(** ** Relations a computation keeps between its start and end states

    [preserves R m]: whenever [m] returns, its final state is related to
    its initial state by [R].  With [R] a preorder the property composes
    through [bind], [if] and [for_each]; the primitive reads and writes
    need that [R] tolerates a write to stdout and the consumption of one
    input line.  Two instances are used: [same_db] (the database is left
    alone) and [input_suffix] (input is only consumed). *)
Section preserves.
Context {T : Type}.
Local Abbreviation P := (Proc T).
Context (R : relation P) `{!PreOrder R}.

Definition preserves {A} (m : M P A) : Prop :=
  forall p a p', m p = Done a p' -> R p p'.

Lemma preserves_ret {A} (a : A) : preserves (ret a).
Proof. intros p b p' [= _ <-]. reflexivity. Qed.

Lemma preserves_bind {A B} (m : M P A) (k : A -> M P B) :
  preserves m -> (forall a, preserves (k a)) -> preserves (bind m k).
Proof.
  intros Hm Hk p b p'. unfold bind. destruct (m p) as [a p1|?|?] eqn:E; [|done..].
  intros Hp'. etrans; [exact (Hm _ _ _ E)|exact (Hk _ _ _ _ Hp')].
Qed.

Lemma preserves_if {A} (b : bool) (m1 m2 : M P A) :
  preserves m1 -> preserves m2 -> preserves (if b then m1 else m2).
Proof. by destruct b. Qed.

Lemma preserves_panic {A} msg : preserves (A:=A) (panic msg).
Proof. done. Qed.

Lemma preserves_out_of_fuel {A} : preserves (A:=A) out_of_fuel.
Proof. done. Qed.

Lemma preserves_expect {A} msg (o : option A) : preserves (expect msg o).
Proof. destruct o; [apply preserves_ret|apply preserves_panic]. Qed.

Lemma preserves_unwrap {A} (o : option A) : preserves (unwrap o).
Proof. apply preserves_expect. Qed.

Lemma preserves_get_database : preserves get_database.
Proof. intros p a p' [= _ <-]. reflexivity. Qed.

Lemma preserves_for_each {A} (l : list A) (f : A -> M P unit) :
  (forall x, preserves (f x)) -> preserves (for_each l f).
Proof.
  intros Hf. induction l as [|x l IH]; simpl; [apply preserves_ret|].
  by apply preserves_bind.
Qed.

Section io_steps.
Hypothesis R_output : forall p out, R p (set_stdout out p).
Hypothesis R_read : forall p i rest,
  stdin p = i :: rest -> R p (mkProc (database p) rest (stdout p)).

Lemma preserves_print s : preserves (print s).
Proof. intros p a p' [= _ <-]. apply R_output. Qed.

Lemma preserves_println s : preserves (println s).
Proof. apply preserves_print. Qed.

Lemma preserves_flush : preserves flush_stdout.
Proof. apply preserves_ret. Qed.

Lemma preserves_read_line : preserves read_line.
Proof.
  intros p a p'. unfold read_line.
  destruct (stdin p) as [|[s|] rest] eqn:Hin; intros Hp; simplify_eq;
    [reflexivity|by eapply R_read..].
Qed.

Lemma preserves_read_line_expect msg : preserves (read_line_expect msg).
Proof. apply preserves_bind; [apply preserves_read_line|intros; apply preserves_expect]. Qed.
End io_steps.
End preserves.

Section relations.
Context {T : Type}.
Local Abbreviation P := (Proc T).

(** The database is left alone. *)
Definition same_db (p p' : P) : Prop := database p' = database p.

(** The input still to be read is a suffix of the input at the start:
    a computation only consumes input. *)
Definition input_suffix (p p' : P) : Prop := stdin p' `suffix_of` stdin p.

#[export] Instance same_db_preorder : PreOrder same_db.
Proof. split; [by intros p|intros p1 p2 p3 H12 H23; unfold same_db in *; congruence]. Qed.

#[export] Instance input_suffix_preorder : PreOrder input_suffix.
Proof. unfold input_suffix. split; [intros p; reflexivity|intros p1 p2 p3 ??; by etrans]. Qed.

Lemma same_db_output p out : same_db p (set_stdout out p).
Proof. done. Qed.

Lemma same_db_read p i rest : stdin p = i :: rest -> same_db p (mkProc (database p) rest (stdout p)).
Proof. done. Qed.

Lemma input_suffix_output p out : input_suffix p (set_stdout out p).
Proof. unfold input_suffix. done. Qed.

Lemma input_suffix_read p i rest :
  stdin p = i :: rest -> input_suffix p (mkProc (database p) rest (stdout p)).
Proof. intros Hin. unfold input_suffix. rewrite Hin. by apply suffix_cons_r. Qed.

Lemma preserves_put_database db : preserves input_suffix (put_database (T:=T) db).
Proof. intros p a p' [= _ <-]. unfold input_suffix. done. Qed.

Lemma preserves_no_read_error {A} (m : M P A) p a p' :
  preserves input_suffix m -> m p = Done a p' -> ReadError ∉ stdin p -> ReadError ∉ stdin p'.
Proof. intros Hm Hd Hin Hr. destruct (Hm _ _ _ Hd) as [k Hk]. apply Hin. rewrite Hk. set_solver. Qed.

Lemma preserves_stdin {A} (m : M P A) p a p' :
  preserves input_suffix m -> m p = Done a p' -> length (stdin p') <= length (stdin p).
Proof. intros Hm Hd. apply suffix_length, (Hm _ _ _ Hd). Qed.
End relations.

Abbreviation db_pres := (preserves same_db).

#[export] Hint Resolve preserves_ret preserves_bind preserves_if preserves_panic
  preserves_out_of_fuel preserves_expect preserves_unwrap preserves_get_database
  preserves_for_each preserves_print preserves_println preserves_flush preserves_read_line
  preserves_read_line_expect preserves_put_database same_db_output same_db_read
  input_suffix_output input_suffix_read same_db_preorder input_suffix_preorder : rs.

(** Prove [preserves R] of a composite computation from its parts. *)
Ltac solve_preserves :=
  repeat first
    [ apply preserves_bind; intros
    | apply preserves_if
    | apply preserves_for_each; intros
    | progress cbn zeta
    | solve [eauto with rs]
    | match goal with |- preserves _ (match ?x with _ => _ end) => destruct x end ].

Arguments print {T} s _ /.
Arguments println {T} s _ /.
Arguments flush_stdout {T} _ /.
Arguments read_line {T} _ /.
Arguments get_database {T} _ /.
Arguments put_database {T} db _ /.
