(* ===== verification/Menu.v ===== *)
(** * The menu: [Choice], [OPTIONS], [display_prompt], [take_input_and_verify]

    [take_input_and_verify] (src/main.rs, lines 33-57) reads one line,
    parses it as an [i32] and, when the number is not in [1..=5], prints
    an error and calls itself, but it discards the [Choice] the recursive
    call returns: execution falls through to [choice.unwrap() - 1] on the
    invalid number, which panics.  The theorems of this file make that
    precise: an invalid first line never yields a [Choice]; followed by a
    valid line, it ends in a panic; at end of input the function recurses
    without bound. *)

From S2P Require Import Prelude RustStr Trim MultiMap Console.

(** [#[derive(Debug, FromPrimitive)] enum Choice] *)
Inductive Choice := Create | Select | Update | Delete | ViewAll.

#[export] Instance Choice_eq_dec : EqDecision Choice.
Proof. solve_decision. Defined.

(** [FromPrimitive::from_i32] as derived: the discriminants are 0 to 4 in
    declaration order. *)
Definition Choice_from_i32 (n : Z) : option Choice :=
  match n with
  | 0%Z => Some Create
  | 1%Z => Some Select
  | 2%Z => Some Update
  | 3%Z => Some Delete
  | 4%Z => Some ViewAll
  | _ => None
  end.

Definition OPTIONS : list string := [
  "Create a new key value pair";
  "Select a key value pair";
  "Update value of a key";
  "Delete a key value pair";
  "View all entries"].

Definition invalid_input_msg : string := "Invalid input, please try again.".
Definition sub_overflow_msg : string := "attempt to subtract with overflow".

Section menu.
Context {T : Type}.
Local Abbreviation P := (Proc T).

(** [for i in 0..OPTIONS.len() { println!("{}) {}", i + 1, OPTIONS[i]); }] *)
Definition display_prompt : M P unit :=
  println "Please choose: " ;;
  for_each (seq 0 (length OPTIONS)) (fun i =>
    match OPTIONS !! i with
    | Some opt => println (fmt_usize (i + 1) +:+ ") " +:+ opt)
    | None => panic "index out of bounds"
    end).

(** [match input.trim().parse::<i32>() { Ok(n) => Some(n), Err(_) => None }] *)
Definition parse_choice (input : string) : option Z :=
  result_ok (from_str_i32 (trim input)).

(** [choice == None || choice.unwrap() < 1
     || choice.unwrap() > OPTIONS.len().try_into().unwrap()], evaluated
    left to right with short circuits. *)
Definition invalid_choice (choice : option Z) : M P bool :=
  match choice with
  | None => ret true
  | Some n =>
      if (n <? 1)%Z then ret true
      else bound <- unwrap (usize_try_into_i32 (length OPTIONS)) ;; ret (bound <? n)%Z
  end.

(** [FromPrimitive::from_i32(choice.unwrap() - 1).expect(...)], with the
    subtraction checked as in a debug build. *)
Definition convert_choice (choice : option Z) : M P Choice :=
  n <- unwrap choice ;;
  idx <- expect sub_overflow_msg (i32_checked_sub n 1) ;;
  expect "get Choice enum from i32" (Choice_from_i32 idx).

(** The whole function.  The result of the recursive call is dropped. *)
Fixpoint take_input_and_verify (fuel : nat) : M P Choice :=
  match fuel with
  | O => out_of_fuel
  | S fuel' =>
      flush_stdout ;; print "> " ;; flush_stdout ;;
      input <- read_line_expect "reading input from stdin" ;;
      let choice := parse_choice input in
      invalid <- invalid_choice choice ;;
      (if invalid
       then println invalid_input_msg ;; take_input_and_verify fuel' ;; ret tt
       else ret tt) ;;
      convert_choice choice
  end.
End menu.

(** ** Lemmas on the pieces of [take_input_and_verify] *)
Section menu_lemmas.
Context {T : Type}.
Local Abbreviation P := (Proc T).
Implicit Types (p : P) (choice : option Z).

(** A selection the code rejects: unparsable, or outside [1..=5]. *)
Definition rejected (choice : option Z) : Prop :=
  forall n, choice = Some n -> (n < 1 \/ 5 < n)%Z.

Lemma Choice_from_i32_Some z c : Choice_from_i32 z = Some c -> (0 <= z <= 4)%Z.
Proof.
  unfold Choice_from_i32. intros H.
  repeat (case_match; try discriminate); subst; lia.
Qed.

Lemma Choice_from_i32_total z : (0 <= z <= 4)%Z -> exists c, Choice_from_i32 z = Some c.
Proof.
  intros Hz. assert (z = 0 \/ z = 1 \/ z = 2 \/ z = 3 \/ z = 4)%Z as Hc by lia.
  destruct_or! Hc; subst; eexists; reflexivity.
Qed.

Lemma invalid_choice_rejected choice p :
  rejected choice -> invalid_choice choice p = Done true p.
Proof.
  intros Hr. destruct choice as [n|]; [|done].
  specialize (Hr n eq_refl). simpl.
  destruct (Z.ltb_spec n 1); [done|]. cbn. destruct (Z.ltb_spec (Z.of_nat 5) n); [done|lia].
Qed.

Lemma invalid_choice_accepted n p :
  (1 <= n <= 5)%Z -> invalid_choice (Some n) p = Done false p.
Proof.
  intros Hn. simpl. destruct (Z.ltb_spec n 1); [lia|]. cbn.
  destruct (Z.ltb_spec (Z.of_nat 5) n); [lia|done].
Qed.

Lemma convert_choice_rejected choice p :
  rejected choice -> exists msg, convert_choice choice p = Panic msg p.
Proof.
  intros Hr. destruct choice as [n|]; [|by eexists]. specialize (Hr n eq_refl).
  unfold convert_choice. cbn -[i32_checked_sub Choice_from_i32].
  destruct (i32_checked_sub n 1) as [m|] eqn:Hm; cbn -[Choice_from_i32]; [|by eexists].
  unfold i32_checked_sub in Hm. apply i32_of_Z_Some in Hm as [-> _].
  destruct (Choice_from_i32 (n - 1)) as [c|] eqn:Hc; [|by eexists].
  apply Choice_from_i32_Some in Hc. lia.
Qed.

Lemma convert_choice_accepted n c p :
  (1 <= n <= 5)%Z -> Choice_from_i32 (n - 1) = Some c ->
  convert_choice (Some n) p = Done c p.
Proof.
  intros Hn Hc. unfold convert_choice. cbn -[i32_checked_sub Choice_from_i32].
  replace (i32_checked_sub n 1) with (Some (n - 1)%Z).
  - cbn -[Choice_from_i32]. by rewrite Hc.
  - symmetry. apply i32_of_Z_Some. unfold i32_min, i32_max. lia.
Qed.

Lemma take_input_and_verify_S f p :
  take_input_and_verify (S f) p =
  (input <- read_line_expect "reading input from stdin" ;;
   let choice := parse_choice input in
   invalid <- invalid_choice choice ;;
   (if invalid then println invalid_input_msg ;; take_input_and_verify f ;; ret tt
    else ret tt) ;;
   convert_choice choice) (set_stdout (stdout p ++ ["> "]) p).
Proof. reflexivity. Qed.

Lemma parse_choice_eof : parse_choice EmptyString = None.
Proof. reflexivity. Qed.

Lemma display_prompt_db_pres : db_pres (display_prompt (T:=T)).
Proof. unfold display_prompt. solve_preserves. Qed.

Lemma take_input_db_pres f : db_pres (take_input_and_verify (T:=T) f).
Proof.
  induction f as [|f IH]; simpl; [apply preserves_out_of_fuel|].
  unfold invalid_choice, convert_choice. solve_preserves.
Qed.
End menu_lemmas.

(** ** Theorems on [take_input_and_verify] *)
Definition menu_lines : list string := [
  "Please choose: " +:+ LF;
  "1) Create a new key value pair" +:+ LF;
  "2) Select a key value pair" +:+ LF;
  "3) Update value of a key" +:+ LF;
  "4) Delete a key value pair" +:+ LF;
  "5) View all entries" +:+ LF].

Section menu_theorems.
Context {T : Type}.
Local Abbreviation P := (Proc T).
Implicit Types (p : P).

(** [display_prompt] prints the menu: a header and the five options
    numbered from 1, each number the [usize] formatting of the option's
    index plus one. *)
Lemma display_prompt_output p :
  display_prompt p = Done tt (set_stdout (stdout p ++ menu_lines) p).
Proof. destruct p. cbn. rewrite <- !app_assoc. reflexivity. Qed.


Lemma take_input_accepts (f : nat) p s rest n c :
  stdin p = Line s :: rest ->
  parse_choice s = Some n -> (1 <= n <= 5)%Z ->
  Choice_from_i32 (n - 1) = Some c ->
  take_input_and_verify (S f) p =
  Done c (mkProc (database p) rest (stdout p ++ ["> "])).
Proof.
  intros Hin Hs Hn Hc. rewrite take_input_and_verify_S.
  erewrite bind_Done by (apply read_line_expect_Line; exact Hin). cbn zeta.
  rewrite Hs. erewrite bind_Done by (apply invalid_choice_accepted, Hn).
  cbn iota. rewrite bind_ret_l. by apply convert_choice_accepted.
Qed.

(** A rejected line: the error is printed, the recursive call runs on
    the rest of the input, and whatever it does, the rejected number is
    converted afterwards. *)
Lemma take_input_rejected_step (f : nat) p b rest :
  stdin p = Line b :: rest -> rejected (parse_choice b) ->
  take_input_and_verify (S f) p =
  (take_input_and_verify f ;; convert_choice (parse_choice b))
    (mkProc (database p) rest (stdout p ++ ["> "; invalid_input_msg +:+ LF])).
Proof.
  intros Hin Hr. rewrite take_input_and_verify_S.
  erewrite bind_Done by (apply read_line_expect_Line; exact Hin). cbn zeta.
  erewrite bind_Done by (apply invalid_choice_rejected, Hr).
  cbn [println print modify]. rewrite bind_assoc. unfold bind. cbn.
  rewrite <- app_assoc. by destruct (take_input_and_verify f _).
Qed.

(** At end of input, every call runs out of its budget. *)
Lemma take_input_eof_loops (f : nat) p :
  stdin p = [] -> exists p', take_input_and_verify f p = NoFuel p'.
Proof.
  revert p. induction f as [|f IH]; intros p Hin; [by eexists|].
  rewrite take_input_and_verify_S.
  erewrite bind_Done by (apply read_line_expect_eof; exact Hin). cbn zeta.
  rewrite parse_choice_eof.
  erewrite bind_Done by (apply invalid_choice_rejected; by intros ? ?). cbn iota.
  destruct (IH (set_stdout (stdout p ++ ["> "; invalid_input_msg +:+ LF]) p)) as [p' Hp'];
    [done|].
  exists p'. cbn. unfold set_stdout in Hp' |- *. cbn.
  rewrite <- app_assoc. simpl. rewrite Hp'. done.
Qed.

(** The function returns only on a valid first line, which it consumes. *)
Lemma take_input_Done_inv (f : nat) p c p' :
  take_input_and_verify f p = Done c p' ->
  exists s rest n,
    stdin p = Line s :: rest /\ parse_choice s = Some n /\ (1 <= n <= 5)%Z /\
    Choice_from_i32 (n - 1) = Some c /\
    p' = mkProc (database p) rest (stdout p ++ ["> "]).
Proof.
  destruct f as [|f]; [done|]. rewrite take_input_and_verify_S.
  destruct (stdin p) as [|[s|] rest] eqn:Hin.
  - erewrite bind_Done by (apply read_line_expect_eof; exact Hin). cbn zeta.
    rewrite parse_choice_eof.
    erewrite bind_Done by (apply invalid_choice_rejected; by intros ? ?).
    intros Hd; exfalso; revert Hd. apply bind_never_Done. intros a s1 b s2.
    by destruct (convert_choice_rejected (T:=T) None s1) as [msg ->].
  - erewrite bind_Done by (apply read_line_expect_Line; exact Hin). cbn zeta.
    destruct (parse_choice s) as [n|] eqn:Hs;
      [destruct (decide (1 <= n <= 5)%Z) as [Hn|Hn]|].
    + erewrite bind_Done by (apply invalid_choice_accepted, Hn). cbn iota.
      rewrite bind_ret_l. unfold convert_choice. cbn -[i32_checked_sub Choice_from_i32].
      replace (i32_checked_sub n 1) with (Some (n - 1)%Z)
        by (symmetry; apply i32_of_Z_Some; unfold i32_min, i32_max; lia).
      cbn -[Choice_from_i32]. destruct (Choice_from_i32 (n - 1)) as [c'|] eqn:Hc; [|done].
      intros [= <- <-]. by exists s, rest, n.
    + assert (rejected (Some n)) as Hr by (intros ? [= <-]; lia).
      erewrite bind_Done by (apply invalid_choice_rejected, Hr).
      intros Hd; exfalso; revert Hd. apply bind_never_Done. intros a s1 b s2.
      by destruct (convert_choice_rejected _ s1 Hr) as [msg ->].
    + assert (rejected None) as Hr by done.
      erewrite bind_Done by (apply invalid_choice_rejected, Hr).
      intros Hd; exfalso; revert Hd. apply bind_never_Done. intros a s1 b s2.
      by destruct (convert_choice_rejected _ s1 Hr) as [msg ->].
  - erewrite bind_Panic by (apply read_line_expect_error; exact Hin). done.
Qed.

(** C23. A line that parses to a number in [1..=5] is accepted: with any
    call-depth budget of at least one, the function returns the [Choice]
    whose discriminant is that number minus one, having consumed the line
    and printed the prompt ["> "]. *)
Theorem take_input_valid (f : nat) p s rest n c :
  stdin p = Line s :: rest ->
  parse_choice s = Some n -> (1 <= n <= 5)%Z ->
  Choice_from_i32 (n - 1) = Some c ->
  take_input_and_verify (S f) p =
  Done c (mkProc (database p) rest (stdout p ++ ["> "])).
Proof. apply take_input_accepts. Qed.

(** C1. An invalid first line is never recovered from: whatever the
    following input and the call-depth budget, [take_input_and_verify]
    does not return a [Choice]; it panics or recurses for ever.  The spec
    (section 7) calls this error recoverable. *)
Theorem take_input_invalid_never_returns (f : nat) p s rest :
  stdin p = Line s :: rest -> rejected (parse_choice s) ->
  forall c p', take_input_and_verify f p <> Done c p'.
Proof.
  intros Hin Hr c p'. destruct f as [|f]; [done|]. rewrite take_input_and_verify_S.
  erewrite bind_Done by (apply read_line_expect_Line; exact Hin). cbn zeta.
  erewrite bind_Done by (apply invalid_choice_rejected, Hr).
  apply bind_never_Done. intros a s1 b s2.
  destruct (convert_choice_rejected _ s1 Hr) as [msg ->]. done.
Qed.

(** C2. The recovery the code attempts: an invalid line followed by a
    valid one, with budget for the recursive call, prints the error and a
    second prompt, consumes both lines, and then panics on the first,
    invalid number. *)
Theorem take_input_invalid_then_valid (f : nat) p s1 s2 rest n c :
  stdin p = Line s1 :: Line s2 :: rest ->
  rejected (parse_choice s1) ->
  parse_choice s2 = Some n -> (1 <= n <= 5)%Z -> Choice_from_i32 (n - 1) = Some c ->
  exists msg,
    take_input_and_verify (S (S f)) p =
    Panic msg (mkProc (database p) rest
                 (stdout p ++ ["> "; invalid_input_msg +:+ LF; "> "])).
Proof.
  intros Hin Hr Hs Hn Hc. rewrite (take_input_rejected_step _ _ s1 (Line s2 :: rest)) by done.
  erewrite bind_Done by (apply (take_input_accepts f _ s2 rest n c); done). cbn.
  rewrite <- !app_assoc.
  edestruct (convert_choice_rejected (T:=T) (parse_choice s1)) as [msg Hm]; [done|].
  exists msg. apply Hm.
Qed.

(** C25. White space around the selection does not matter: the line
    terminator and spaces typed around the number are trimmed away. *)
Theorem parse_choice_pad (w1 s w2 : string) :
  all_whitespace w1 = true -> all_whitespace w2 = true ->
  parse_choice (w1 ++ s ++ w2) = parse_choice s.
Proof. intros H1 H2. unfold parse_choice. by rewrite trim_pad. Qed.

Lemma parse_choice_fmt_line (n : nat) :
  (Z.of_nat n <= i32_max)%Z -> parse_choice (fmt_usize n +:+ LF) = Some (Z.of_nat n).
Proof.
  intros Hn. unfold parse_choice. rewrite trim_pad_r, trim_fmt_usize by done.
  by rewrite fmt_usize_roundtrip.
Qed.

(** C24. The menu and the parser agree: the line [display_prompt]
    prints for the option at index [i] is a label, [") "] and the
    option's text; the label typed back on a line is accepted by
    [take_input_and_verify] as the [Choice] of discriminant [i]. *)
Theorem menu_number_selects (i : nat) (f : nat) p opt :
  OPTIONS !! i = Some opt ->
  exists out label c,
    display_prompt p = Done tt (set_stdout (stdout p ++ out) p) /\
    out !! S i = Some (label +:+ ") " +:+ opt +:+ LF) /\
    Choice_from_i32 (Z.of_nat i) = Some c /\
    forall (q : P) rest, stdin q = Line (label +:+ LF) :: rest ->
      take_input_and_verify (S f) q = Done c (mkProc (database q) rest (stdout q ++ ["> "])).
Proof.
  intros Hopt. pose proof (lookup_lt_Some _ _ _ Hopt) as Hi. simpl in Hi.
  destruct (Choice_from_i32_total (Z.of_nat i)) as [c Hc]; [lia|].
  exists menu_lines, (fmt_usize (i + 1)), c. split_and!; [apply display_prompt_output| |done|].
  - destruct i as [|[|[|[|[|i]]]]]; simplify_eq/=; first [reflexivity|lia].
  - intros q rest Hin.
    apply (take_input_accepts f q (fmt_usize (i + 1) +:+ LF) rest (Z.of_nat (i + 1)));
      [done| |lia|].
    + apply parse_choice_fmt_line. unfold i32_max. lia.
    + by replace (Z.of_nat (i + 1) - 1)%Z with (Z.of_nat i) by lia.
Qed.
End menu_theorems.

(** ** Witnesses: the theorems applied to concrete runs *)

Lemma take_input_invalid_never_returns_witness :
  rejected (parse_choice ("9" +:+ LF)) /\
  forall c p', take_input_and_verify 3
    (mkProc MultiMap_new [Line ("9" +:+ LF); Line ("1" +:+ LF)] []) <> Done c p'.
Proof.
  assert (rejected (parse_choice ("9" +:+ LF))) as Hr.
  { intros n Hn. vm_compute in Hn. injection Hn as <-. lia. }
  split; [exact Hr|].
  exact (take_input_invalid_never_returns 3
           (mkProc MultiMap_new [Line ("9" +:+ LF); Line ("1" +:+ LF)] [])
           ("9" +:+ LF) [Line ("1" +:+ LF)] eq_refl Hr).
Defined.

Lemma take_input_invalid_then_valid_witness :
  exists msg, take_input_and_verify 2
    (mkProc MultiMap_new [Line ("abc" +:+ LF); Line ("2" +:+ LF)] []) =
    Panic msg (mkProc MultiMap_new [] ([] ++ ["> "; invalid_input_msg +:+ LF; "> "])).
Proof.
  apply (take_input_invalid_then_valid 0
           (mkProc MultiMap_new [Line ("abc" +:+ LF); Line ("2" +:+ LF)] [])
           ("abc" +:+ LF) ("2" +:+ LF) [] 2 Select);
    [reflexivity| |reflexivity|lia|reflexivity].
  intros n Hn. vm_compute in Hn. discriminate.
Defined.

Lemma take_input_valid_witness :
  parse_choice (" 3 " +:+ LF) = Some 3%Z /\
  take_input_and_verify 1 (mkProc MultiMap_new [Line (" 3 " +:+ LF)] []) =
  Done Update (mkProc MultiMap_new [] ([] ++ ["> "])).
Proof.
  split; [reflexivity|].
  apply (take_input_valid 0 (mkProc MultiMap_new [Line (" 3 " +:+ LF)] []) (" 3 " +:+ LF)
           [] 3 Update); [reflexivity|reflexivity|lia|reflexivity].
Defined.

Lemma parse_choice_pad_witness :
  all_whitespace " " = true /\ all_whitespace LF = true /\
  parse_choice (" " ++ "4" ++ LF) = parse_choice "4".
Proof.
  split; [reflexivity|]. split; [reflexivity|].
  apply parse_choice_pad; reflexivity.
Defined.

Lemma menu_number_selects_witness :
  OPTIONS !! 2 = Some "Update value of a key" /\
  exists out label c,
    display_prompt (mkProc MultiMap_new [] []) =
      Done tt (set_stdout (stdout (mkProc MultiMap_new [] []) ++ out) (mkProc MultiMap_new [] [])) /\
    out !! 3 = Some (label +:+ ") " +:+ "Update value of a key" +:+ LF) /\
    Choice_from_i32 (Z.of_nat 2) = Some c /\
    forall (q : Proc MultiMap) rest, stdin q = Line (label +:+ LF) :: rest ->
      take_input_and_verify 1 q = Done c (mkProc (database q) rest (stdout q ++ ["> "])).
Proof.
  split; [reflexivity|].
  exact (menu_number_selects 2 0 (mkProc MultiMap_new [] []) "Update value of a key" eq_refl).
Defined.
