(* ===== verification/Handlers.v ===== *)
(** * The five handlers: [create_entry], [select_entry], [update_entry],
      [delete_entry], [view_all_entries] (src/main.rs, lines 59-151)

    Each handler is a [Definition] in the process monad over any database
    type [T] with the [MultiMap] interface; every prompt, read, guard and
    store call of the source is a step of the definition, in the source's
    order.  The theorems are proved from the interface laws only: they
    describe each handler on every branch (key present, key absent, read
    error, end of input) in terms of [mm_get_vec], the store's lookup. *)

From S2P Require Import Prelude RustStr Trim MultiMap Console.

Definition caution_msg : string :=
  "Caution: The key you are trying to update has multiple values. Doing so is not recommended and will lead to only the first insertion value being updated.".
Definition no_such_key_msg : string := "No such key exists.".

(** [format!("{} {}", key, value)] *)
Definition entry_line (key value : string) : string := key +:+ " " +:+ value.

Section handlers.
Context `{MultiMapOps T}.
Local Abbreviation P := (Proc T).

(** The sequence of [(key, value)] pairs the two nested [for] loops of
    [view_all_entries] visit: the map's iteration order across keys,
    insertion order within a key. *)
Definition all_entries (db : T) : list (string * string) :=
  flat_map (fun '(key, values) => map (fun value => (key, value)) values) (mm_iter db).

(** [fn create_database() -> MultiMap<String, String>] *)
Definition create_database : T := mm_new.

Definition view_all_entries : M P unit :=
  db <- get_database ;;
  for_each (mm_iter db) (fun '(key, values) =>
    for_each values (fun value => println (entry_line key value))).

Definition create_entry : M P unit :=
  println "Enter key: " ;;
  key <- read_line_expect "take key input" ;;
  println "Enter value: " ;;
  value <- read_line_expect "take value input" ;;
  db <- get_database ;;
  put_database (mm_insert (trim key) (trim value) db) ;;
  println "Entry stored successfully!".

Definition update_entry : M P unit :=
  println "Enter key: " ;;
  key <- read_line_expect "take key input" ;;
  let key := trim key in
  db <- get_database ;;
  if negb (mm_contains_key key db) then println no_such_key_msg
  else
    values <- unwrap (mm_get_vec key db) ;;
    (if (1 <? length values)%nat then println caution_msg else ret tt) ;;
    println "Enter updated value: " ;;
    value <- read_line_expect "take value input" ;;
    let value := trim value in
    db <- get_database ;;
    db' <- unwrap (mm_get_mut_write key value db) ;;
    put_database db' ;;
    println "Entry updated successfully.".

Definition select_entry : M P unit :=
  println "Enter key: " ;;
  key <- read_line_expect "take key input" ;;
  let key := trim key in
  db <- get_database ;;
  if negb (mm_contains_key key db) then println no_such_key_msg
  else
    values <- unwrap (mm_get_vec key db) ;;
    for_each values (fun value => println (entry_line key value)).

Definition delete_entry : M P unit :=
  println "Enter key: " ;;
  key <- read_line_expect "take key input" ;;
  let key := trim key in
  db <- get_database ;;
  if negb (mm_contains_key key db) then println no_such_key_msg
  else
    put_database (mm_remove key db).2 ;;
    println "Entry deleted successfully.".
End handlers.

(** Run a handler on a state whose input is known. *)
Ltac run_handler p Hin :=
  destruct p as [?db ?inp ?out]; cbn [stdin database stdout] in *; subst;
  cbn -[trim mm_insert mm_get_vec mm_contains_key mm_get_mut_write mm_remove mm_iter];
  unfold set_database, set_stdout; cbn [stdin database stdout].

(** Symbolic execution of a handler in a hypothesis [Hd : h p = o]: case
    analysis on the shape of the input (end, a line, a read error, twice)
    and on the store queries the handler makes. *)
Ltac exec_cbn Hd :=
  cbn -[trim mm_insert mm_get_vec mm_contains_key mm_get_mut_write mm_remove mm_iter
        for_each] in Hd.
Ltac exec_step Hd :=
  match type of Hd with
  | context [mm_contains_key ?k ?m] => destruct (mm_contains_key k m) eqn:?
  | context [mm_get_vec ?k ?m] => destruct (mm_get_vec k m) as [[|?x [|?y ?ys]]|] eqn:?
  | context [mm_get_mut_write ?k ?v ?m] => destruct (mm_get_mut_write k v m) eqn:?
  end.
Ltac exec_handler Hd :=
  match type of Hd with ?h ?p = _ => destruct p as [?db [|[?s1|] [|[?s2|] ?inp]] ?out] end;
  exec_cbn Hd; repeat (exec_step Hd; exec_cbn Hd); simplify_eq/=.

(** Close a branch whose store queries contradict the laws or the store
    invariant [Hwf]: [contains_key] true but [get_vec] [None], an empty
    vector, or [get_mut] failing on a key with values. *)
Ltac store_contra Hwf :=
  match goal with
  | Hc : mm_contains_key _ _ = true, Hg : mm_get_vec _ _ = None |- _ =>
      apply mm_contains_key_true in Hc; rewrite Hg in Hc; by destruct Hc
  | Hg : mm_get_vec _ _ = Some [] |- _ => by apply Hwf in Hg
  | Hw : mm_get_mut_write _ _ _ = None, Hg : mm_get_vec _ _ = Some (_ :: _) |- _ =>
      apply mm_get_mut_write_None in Hw; rewrite Hg in Hw; by destruct Hw
  end.

Section handler_theorems.
Context `{MultiMapLaws T}.
Local Abbreviation P := (Proc T).
Implicit Types (p : P) (k v : string).

(** C5. [create_entry] reads a key and a value, and appends the trimmed
    value to the values of the trimmed key, creating the key when it is
    absent; no other key changes. *)
Theorem create_entry_appends p k v rest :
  stdin p = Line k :: Line v :: rest ->
  exists db',
    create_entry p =
      Done tt (mkProc db' rest (stdout p ++ ["Enter key: " +:+ LF; "Enter value: " +:+ LF;
                                             "Entry stored successfully!" +:+ LF])) /\
    mm_get_vec (trim k) db' = Some (default [] (mm_get_vec (trim k) (database p)) ++ [trim v]) /\
    forall k', k' <> trim k -> mm_get_vec k' db' = mm_get_vec k' (database p).
Proof.
  intros Hin. run_handler p Hin. eexists. split; [by rewrite <- !app_assoc|].
  split; [apply mm_get_vec_insert_eq|]. intros k' Hk'. by apply mm_get_vec_insert_ne.
Qed.

Lemma contains_key_of_Some k (db : T) vs :
  mm_get_vec k db = Some vs -> mm_contains_key k db = true.
Proof. intros Hk. apply mm_contains_key_true. by rewrite Hk. Qed.

Lemma contains_key_of_None k (db : T) :
  mm_get_vec k db = None -> mm_contains_key k db = false.
Proof. apply mm_contains_key_false. Qed.

Lemma update_entry_found p k v rest vs :
  mm_wf (database p) ->
  stdin p = Line k :: Line v :: rest ->
  mm_get_vec (trim k) (database p) = Some vs ->
  exists db',
    update_entry p =
      Done tt (mkProc db' rest
                 (stdout p ++ ["Enter key: " +:+ LF] ++
                  (if (1 <? length vs)%nat then [caution_msg +:+ LF] else []) ++
                  ["Enter updated value: " +:+ LF; "Entry updated successfully." +:+ LF])) /\
    mm_get_vec (trim k) db' = Some (replace_head (trim v) vs) /\
    forall k', k' <> trim k -> mm_get_vec k' db' = mm_get_vec k' (database p).
Proof.
  intros Hwf Hin Hk. destruct vs as [|x xs]; [by apply Hwf in Hk|].
  destruct (mm_get_mut_write_cons (trim k) (trim v) _ x xs Hk) as [db' Hw].
  pose proof (mm_get_mut_write_Some _ _ _ _ Hw) as Hdb'.
  exists db'. split; [|split].
  - pose proof (contains_key_of_Some _ _ _ Hk) as Hc. run_handler p Hin.
    rewrite Hc, Hk. cbn.
    destruct xs as [|x' xs']; cbn; rewrite Hw; cbn; unfold set_database, set_stdout; cbn;
      by rewrite <- !app_assoc.
  - rewrite Hdb', Hk. by case_decide.
  - intros k' Hk'. rewrite Hdb'. by case_decide.
Qed.

(** C6. [update_entry] on a key of the store (which satisfies the store
    invariant): it warns when the key has more than one value, reads the
    new value and replaces the first value of the key only; the later
    values of the key and all other keys are unchanged. *)
Theorem update_entry_present p k v rest vs :
  mm_wf (database p) ->
  stdin p = Line k :: Line v :: rest ->
  mm_get_vec (trim k) (database p) = Some vs ->
  exists db',
    update_entry p =
      Done tt (mkProc db' rest
                 (stdout p ++ ["Enter key: " +:+ LF] ++
                  (if (1 <? length vs)%nat then [caution_msg +:+ LF] else []) ++
                  ["Enter updated value: " +:+ LF; "Entry updated successfully." +:+ LF])) /\
    mm_get_vec (trim k) db' = Some (replace_head (trim v) vs) /\
    forall k', k' <> trim k -> mm_get_vec k' db' = mm_get_vec k' (database p).
Proof. apply update_entry_found. Qed.

Lemma absent_key_run h p k rest :
  h = update_entry \/ h = select_entry \/ h = delete_entry ->
  stdin p = Line k :: rest ->
  mm_get_vec (trim k) (database p) = None ->
  h p = Done tt (mkProc (database p) rest
                   (stdout p ++ ["Enter key: " +:+ LF; no_such_key_msg +:+ LF])).
Proof.
  intros Hh Hin Hk. pose proof (contains_key_of_None _ _ Hk) as Hc.
  destruct_or! Hh; subst h; run_handler p Hin; rewrite Hc; cbn; by rewrite <- app_assoc.
Qed.

(** C18. [update_entry], [select_entry] and [delete_entry] on a key that
    is not in the store print ["No such key exists."], read nothing more
    (the next input line is left for the menu) and leave the store as it
    was: the [NotFound] path of the spec. *)
Theorem absent_key_handlers p k rest :
  stdin p = Line k :: rest ->
  mm_get_vec (trim k) (database p) = None ->
  forall h, h = update_entry \/ h = select_entry \/ h = delete_entry ->
  h p = Done tt (mkProc (database p) rest
                   (stdout p ++ ["Enter key: " +:+ LF; no_such_key_msg +:+ LF])).
Proof. intros Hin Hk h Hh. by apply (absent_key_run h p k rest). Qed.

Lemma select_entry_found p k rest vs :
  stdin p = Line k :: rest ->
  mm_get_vec (trim k) (database p) = Some vs ->
  select_entry p =
    Done tt (mkProc (database p) rest
               (stdout p ++ ["Enter key: " +:+ LF] ++
                map (fun value => entry_line (trim k) value +:+ LF) vs)).
Proof.
  intros Hin Hk. pose proof (contains_key_of_Some _ _ _ Hk) as Hc.
  run_handler p Hin. rewrite Hc, Hk. cbn.
  rewrite for_each_println. unfold set_stdout. cbn. by rewrite <- app_assoc.
Qed.

(** C19. [select_entry] on a key of the store prints one line
    ["<key> <value>"] per value of the key, in insertion order, and
    changes nothing. *)
Theorem select_entry_present p k rest vs :
  stdin p = Line k :: rest ->
  mm_get_vec (trim k) (database p) = Some vs ->
  select_entry p =
    Done tt (mkProc (database p) rest
               (stdout p ++ ["Enter key: " +:+ LF] ++
                map (fun value => entry_line (trim k) value +:+ LF) vs)).
Proof. apply select_entry_found. Qed.

Lemma delete_entry_found p k rest vs :
  stdin p = Line k :: rest ->
  mm_get_vec (trim k) (database p) = Some vs ->
  exists db',
    delete_entry p =
      Done tt (mkProc db' rest (stdout p ++ ["Enter key: " +:+ LF;
                                             "Entry deleted successfully." +:+ LF])) /\
    mm_get_vec (trim k) db' = None /\
    forall k', k' <> trim k -> mm_get_vec k' db' = mm_get_vec k' (database p).
Proof.
  intros Hin Hk. pose proof (contains_key_of_Some _ _ _ Hk) as Hc.
  exists (mm_remove (trim k) (database p)).2. split; [|split].
  - run_handler p Hin. rewrite Hc. cbn. by rewrite <- !app_assoc.
  - rewrite mm_get_vec_remove. by case_decide.
  - intros k' Hk'. rewrite mm_get_vec_remove. by case_decide.
Qed.

(** C20. [delete_entry] on a key of the store removes the key with all
    its values and changes no other key. *)
Theorem delete_entry_present p k rest vs :
  stdin p = Line k :: rest ->
  mm_get_vec (trim k) (database p) = Some vs ->
  exists db',
    delete_entry p =
      Done tt (mkProc db' rest (stdout p ++ ["Enter key: " +:+ LF;
                                             "Entry deleted successfully." +:+ LF])) /\
    mm_get_vec (trim k) db' = None /\
    forall k', k' <> trim k -> mm_get_vec k' db' = mm_get_vec k' (database p).
Proof. apply delete_entry_found. Qed.

Lemma for_each_entries (l : list (string * list string)) p :
  for_each l (fun '(key, values) =>
    for_each values (fun value => println (entry_line key value))) p =
  Done tt (set_stdout (stdout p ++
    map (fun '(key, value) => entry_line key value +:+ LF)
      (flat_map (fun '(key, values) => map (fun value => (key, value)) values) l)) p).
Proof.
  revert p. induction l as [|[key values] l IH]; intros p; simpl.
  - rewrite app_nil_r. by destruct p.
  - rewrite for_each_println, IH. unfold set_stdout. simpl.
    rewrite map_app, map_map, <- app_assoc. done.
Qed.

Lemma view_all_entries_run p :
  view_all_entries p =
  Done tt (set_stdout (stdout p ++
    map (fun '(key, value) => entry_line key value +:+ LF) (all_entries (database p))) p).
Proof. unfold view_all_entries. cbn -[for_each]. apply for_each_entries. Qed.

Lemma filter_key_pairs k key (values : list string) :
  filter (fun e : string * string => e.1 = k) (map (fun value => (key, value)) values) =
  if decide (key = k) then map (fun value => (key, value)) values else [].
Proof.
  induction values as [|v vs IH]; simpl; [by case_decide|].
  rewrite filter_cons, IH. simpl. by destruct (decide (key = k)).
Qed.

Lemma flat_entries_not_key k (l : list (string * list string)) :
  k ∉ l.*1 ->
  filter (fun e => e.1 = k)
    (flat_map (fun '(key, values) => map (fun value => (key, value)) values) l) = [].
Proof.
  induction l as [|[key values] l IH]; simpl; [done|].
  intros [Hne Hk]%not_elem_of_cons.
  rewrite filter_app, IH, filter_key_pairs by done. by rewrite decide_False.
Qed.

Lemma flat_entries_key k vs (l : list (string * list string)) :
  NoDup l.*1 -> (k, vs) ∈ l ->
  map snd (filter (fun e => e.1 = k)
    (flat_map (fun '(key, values) => map (fun value => (key, value)) values) l)) = vs.
Proof.
  induction l as [|[key values] l IH]; simpl; [by intros _ ?%not_elem_of_nil|].
  intros [Hnd Hl]%NoDup_cons [[= -> ->]|Hin]%elem_of_cons;
    rewrite filter_app, filter_key_pairs.
  - rewrite decide_True, flat_entries_not_key, app_nil_r by done.
    rewrite map_map. apply map_id.
  - assert (key <> k) as Hne.
    { intros ->. apply Hnd. apply list_elem_of_fmap. by exists (k, vs). }
    rewrite decide_False by done. by apply IH.
Qed.

(** C21. The [all_entries] contract of the spec (section 4.1): the
    values listed for a key are exactly the key's values, in insertion
    order, whatever order the map iterates its keys in. *)
Theorem all_entries_per_key (db : T) k :
  map snd (filter (fun e => e.1 = k) (all_entries db)) = default [] (mm_get_vec k db).
Proof.
  unfold all_entries. destruct (mm_get_vec k db) as [vs|] eqn:Hk; simpl.
  - apply flat_entries_key; [apply mm_iter_NoDup|]. by apply mm_elem_of_iter.
  - rewrite flat_entries_not_key; [done|]. intros [[k' vs] [-> Hin]]%list_elem_of_fmap.
    apply mm_elem_of_iter in Hin. simpl in Hk. congruence.
Qed.
(** C26. [create_entry] does not check for end of input: at end of
    input both reads return the empty string and the empty key is stored
    with an empty value. *)
Theorem create_entry_eof p :
  stdin p = [] ->
  create_entry p =
    Done tt (mkProc (mm_insert EmptyString EmptyString (database p)) []
               (stdout p ++ ["Enter key: " +:+ LF; "Enter value: " +:+ LF;
                             "Entry stored successfully!" +:+ LF])).
Proof. intros Hin. run_handler p Hin. by rewrite <- !app_assoc. Qed.
End handler_theorems.

(** ** Store invariants preserved by every handler

    A property [I] of the store that holds after each of the three store
    updates the handlers make (an insert of a trimmed key and value, the
    write through [get_mut] of a trimmed value, a removal) holds after
    each handler; [select_entry] and [view_all_entries] do not change the
    store. *)
Section handler_inv.
Context `{MultiMapOps T}.
Local Abbreviation P := (Proc T).
Implicit Types (p : P).
Context (I : T -> Prop).
Hypothesis I_insert : forall k v db, I db -> I (mm_insert (trim k) (trim v) db).
Hypothesis I_write : forall k v db db',
  I db -> mm_get_mut_write (trim k) (trim v) db = Some db' -> I db'.
Hypothesis I_remove : forall k db, I db -> I (mm_remove (trim k) db).2.

Lemma create_entry_inv p p' :
  create_entry p = Done tt p' -> I (database p) -> I (database p').
Proof. intros Hd. exec_handler Hd; eauto. Qed.

Lemma update_entry_inv p p' :
  update_entry p = Done tt p' -> I (database p) -> I (database p').
Proof. intros Hd. exec_handler Hd; eauto. Qed.

Lemma delete_entry_inv p p' :
  delete_entry p = Done tt p' -> I (database p) -> I (database p').
Proof. intros Hd. exec_handler Hd; eauto. Qed.
End handler_inv.

Section handler_db_pres.
Context `{MultiMapOps T}.

Lemma select_entry_db_pres : db_pres (select_entry (T:=T)).
Proof. unfold select_entry. solve_preserves. Qed.

Lemma view_all_entries_db_pres : db_pres (view_all_entries (T:=T)).
Proof. unfold view_all_entries. solve_preserves. Qed.
End handler_db_pres.

Section handler_safety.
Context `{MultiMapLaws T}.
Local Abbreviation P := (Proc T).

(** C22. On a store satisfying the invariant, the two [unwrap]s of
    [update_entry] ([get_vec(key).unwrap()] and [get_mut(&key).unwrap()])
    never panic: the only panics are the failed reads of the key or of the
    new value. *)
Theorem update_entry_no_unwrap_panic (p : P) msg p' :
  mm_wf (database p) -> update_entry p = Panic msg p' ->
  msg = "take key input" \/ msg = "take value input".
Proof.
  intros Hwf Hd. exec_handler Hd; auto; store_contra Hwf.
Qed.
End handler_safety.

(** ** Witnesses: the theorems applied to concrete runs *)

(** The store of the spec's scenario A: "color" holds "red" then "blue". *)
Definition color_db : MultiMap := mm_insert "color" "blue" (mm_insert "color" "red" mm_new).

Lemma create_entry_appends_witness :
  exists db',
    create_entry (mkProc color_db [Line (" color" +:+ LF); Line ("white " +:+ LF)] []) =
      Done tt (mkProc db' [] ([] ++ ["Enter key: " +:+ LF; "Enter value: " +:+ LF;
                                    "Entry stored successfully!" +:+ LF])) /\
    mm_get_vec (trim (" color" +:+ LF)) db' =
      Some (default [] (mm_get_vec (trim (" color" +:+ LF)) color_db) ++ [trim ("white " +:+ LF)]) /\
    forall k', k' <> trim (" color" +:+ LF) -> mm_get_vec k' db' = mm_get_vec k' color_db.
Proof.
  exact (create_entry_appends
           (mkProc color_db [Line (" color" +:+ LF); Line ("white " +:+ LF)] [])
           (" color" +:+ LF) ("white " +:+ LF) [] eq_refl).
Defined.

Lemma update_entry_present_witness :
  mm_wf color_db /\ mm_get_vec (trim ("color" +:+ LF)) color_db = Some ["red"; "blue"] /\
  exists db',
    update_entry (mkProc color_db [Line ("color" +:+ LF); Line ("green" +:+ LF)] []) =
      Done tt (mkProc db' []
                 ([] ++ ["Enter key: " +:+ LF] ++
                  (if (1 <? length ["red"; "blue"])%nat then [caution_msg +:+ LF] else []) ++
                  ["Enter updated value: " +:+ LF; "Entry updated successfully." +:+ LF])) /\
    mm_get_vec (trim ("color" +:+ LF)) db' =
      Some (replace_head (trim ("green" +:+ LF)) ["red"; "blue"]) /\
    forall k', k' <> trim ("color" +:+ LF) -> mm_get_vec k' db' = mm_get_vec k' color_db.
Proof.
  assert (mm_wf color_db) as Hwf.
  { unfold color_db. apply mm_wf_insert, mm_wf_insert, mm_wf_new. }
  split; [exact Hwf|]. split; [reflexivity|].
  exact (update_entry_present
           (mkProc color_db [Line ("color" +:+ LF); Line ("green" +:+ LF)] [])
           ("color" +:+ LF) ("green" +:+ LF) [] ["red"; "blue"] Hwf eq_refl eq_refl).
Defined.

Lemma absent_key_handlers_witness :
  mm_get_vec (trim ("missing" +:+ LF)) color_db = None /\
  delete_entry (mkProc color_db [Line ("missing" +:+ LF)] []) =
    Done tt (mkProc color_db [] ([] ++ ["Enter key: " +:+ LF; no_such_key_msg +:+ LF])).
Proof.
  split; [reflexivity|].
  apply (absent_key_handlers (mkProc color_db [Line ("missing" +:+ LF)] [])
           ("missing" +:+ LF) []); [reflexivity|reflexivity|].
  right. right. reflexivity.
Defined.

Lemma select_entry_present_witness :
  mm_get_vec (trim ("color" +:+ LF)) color_db = Some ["red"; "blue"] /\
  select_entry (mkProc color_db [Line ("color" +:+ LF)] []) =
    Done tt (mkProc color_db []
               ([] ++ ["Enter key: " +:+ LF] ++
                map (fun value => entry_line (trim ("color" +:+ LF)) value +:+ LF)
                  ["red"; "blue"])).
Proof.
  split; [reflexivity|].
  apply (select_entry_present (mkProc color_db [Line ("color" +:+ LF)] [])
           ("color" +:+ LF) [] ["red"; "blue"]); reflexivity.
Defined.

Lemma delete_entry_present_witness :
  mm_get_vec (trim ("color" +:+ LF)) color_db = Some ["red"; "blue"] /\
  exists db',
    delete_entry (mkProc color_db [Line ("color" +:+ LF)] []) =
      Done tt (mkProc db' [] ([] ++ ["Enter key: " +:+ LF;
                                    "Entry deleted successfully." +:+ LF])) /\
    mm_get_vec (trim ("color" +:+ LF)) db' = None /\
    forall k', k' <> trim ("color" +:+ LF) -> mm_get_vec k' db' = mm_get_vec k' color_db.
Proof.
  split; [reflexivity|].
  apply (delete_entry_present (mkProc color_db [Line ("color" +:+ LF)] [])
           ("color" +:+ LF) [] ["red"; "blue"]); reflexivity.
Defined.

Lemma update_entry_no_unwrap_panic_witness :
  mm_wf color_db /\
  update_entry (mkProc color_db [ReadError] []) =
    Panic "take key input" (mkProc color_db [] ["Enter key: " +:+ LF]) /\
  ("take key input" = "take key input" \/ "take key input" = "take value input").
Proof.
  assert (mm_wf color_db) as Hwf.
  { unfold color_db. apply mm_wf_insert, mm_wf_insert, mm_wf_new. }
  assert (update_entry (mkProc color_db [ReadError] []) =
            Panic "take key input" (mkProc color_db [] ["Enter key: " +:+ LF])) as Hp.
  { reflexivity. }
  split; [exact Hwf|]. split; [exact Hp|].
  exact (update_entry_no_unwrap_panic (mkProc color_db [ReadError] []) _ _ Hwf Hp).
Defined.

Lemma all_entries_per_key_witness :
  map snd (filter (fun e => e.1 = "color") (all_entries color_db)) =
  default [] (mm_get_vec "color" color_db) /\
  default [] (mm_get_vec "color" color_db) = ["red"; "blue"].
Proof. split; [apply all_entries_per_key|reflexivity]. Defined.

Lemma create_entry_eof_witness :
  stdin (mkProc color_db [] []) = [] /\
  create_entry (mkProc color_db [] []) =
    Done tt (mkProc (mm_insert EmptyString EmptyString color_db) []
               ([] ++ ["Enter key: " +:+ LF; "Enter value: " +:+ LF;
                       "Entry stored successfully!" +:+ LF])).
Proof. split; [reflexivity|]. apply create_entry_eof. reflexivity. Defined.
