(* ===== verification/Loop.v ===== *)
(** * The command loop: [program_loop] and [main] (src/main.rs, lines 153-185)

    [program_loop] prints the menu, obtains a [Choice] from
    [take_input_and_verify], runs the matching handler and calls itself;
    it has no other exit.  The model gives it a call-depth budget [fuel]:
    one unit per nested call, shared with the nested calls of
    [take_input_and_verify] as the stack of the real process is.

    One iteration of the loop that completes is a step of the relation
    [loop_step]; the store invariant [mm_wf] holds in every state reachable
    from the initial one (rule induction on [rtc loop_step]). *)

From S2P Require Import Prelude RustStr Trim MultiMap Console Menu Handlers.

Definition hello_msg : string :=
  "Hello, This is a simple in-memory database application written in Rust".

Section loop.
Context `{MultiMapOps T}.
Local Abbreviation P := (Proc T).

(** The handler an arm of the [match choice] runs before recursing. *)
Definition dispatch (c : Choice) : M P unit :=
  match c with
  | Create => create_entry
  | Update => update_entry
  | Select => select_entry
  | Delete => delete_entry
  | ViewAll => view_all_entries
  end.

Fixpoint program_loop (fuel : nat) : M P unit :=
  match fuel with
  | O => out_of_fuel
  | S fuel' =>
      display_prompt ;;
      choice <- take_input_and_verify fuel' ;;
      match choice with
      | Create => create_entry ;; program_loop fuel'
      | Update => update_entry ;; program_loop fuel'
      | Select => select_entry ;; program_loop fuel'
      | Delete => delete_entry ;; program_loop fuel'
      | ViewAll => view_all_entries ;; program_loop fuel'
      end
  end.

(** The process at start: an empty database, the whole input unread,
    nothing written. *)
Definition initial_proc (input : list input) : P := mkProc create_database input [].

Definition main (fuel : nat) (input : list input) : outcome P unit :=
  (println hello_msg ;; program_loop fuel) (initial_proc input).

(** One iteration of the loop that returns to the menu. *)
Inductive loop_step : P -> P -> Prop :=
  | loop_step_intro f c p p1 p2 :
      (display_prompt ;; take_input_and_verify f) p = Done c p1 ->
      dispatch c p1 = Done tt p2 ->
      loop_step p p2.
End loop.

Section loop_theorems.
Context `{MultiMapOps T}.
Local Abbreviation P := (Proc T).
Implicit Types (p : P).

Lemma program_loop_S f p :
  program_loop (S f) p =
  (display_prompt ;; c <- take_input_and_verify f ;; dispatch c ;; program_loop f) p.
Proof.
  cbn [program_loop]. unfold bind.
  destruct (display_prompt p); [|done..].
  destruct (take_input_and_verify f s) as [c|?|?]; [|done..]. by destruct c.
Qed.

(** C4. [program_loop] has no exit: on any input and with any budget,
    it never returns; it either panics or is still running when the
    budget is exhausted. *)
Theorem program_loop_never_returns (f : nat) p p' :
  program_loop f p <> Done tt p'.
Proof.
  revert p p'. induction f as [|f IH]; intros p p'; [done|].
  rewrite program_loop_S. apply bind_never_Done. intros a1 s1 b1 s2.
  apply bind_never_Done. intros c s3 b2 s4.
  apply bind_never_Done. intros a3 s5 [] s6. apply IH.
Qed.

(** C3. At end of input the loop prints the menu and then recurses
    without bound inside [take_input_and_verify]: for every budget the
    run is unfinished.  End of input does not terminate the program. *)
Theorem program_loop_eof (f : nat) p :
  stdin p = [] -> exists p', program_loop f p = NoFuel p'.
Proof.
  intros Hin. destruct f as [|f]; [by eexists|]. rewrite program_loop_S.
  destruct (take_input_eof_loops f (set_stdout (stdout p ++ menu_lines) p)) as [p' Hp'];
    [done|].
  exists p'. erewrite bind_Done by apply display_prompt_output.
  by erewrite bind_NoFuel.
Qed.
End loop_theorems.

(** ** Store invariants of the loop

    A store property [I] that holds of the empty store and after each
    store update the handlers make holds in every state the loop returns
    to: by induction on the iterations. *)
Section loop_invariant.
Context `{MultiMapOps T}.
Local Abbreviation P := (Proc T).
Implicit Types (p : P).
Context (I : T -> Prop).
Hypothesis I_new : I mm_new.
Hypothesis I_insert : forall k v db, I db -> I (mm_insert (trim k) (trim v) db).
Hypothesis I_write : forall k v db db',
  I db -> mm_get_mut_write (trim k) (trim v) db = Some db' -> I db'.
Hypothesis I_remove : forall k db, I db -> I (mm_remove (trim k) db).2.

Lemma dispatch_inv c p p' :
  dispatch c p = Done tt p' -> I (database p) -> I (database p').
Proof.
  destruct c; simpl; intros Hd HI.
  - by apply (create_entry_inv I I_insert p).
  - by rewrite (select_entry_db_pres _ _ _ Hd).
  - by apply (update_entry_inv I I_write p).
  - by apply (delete_entry_inv I I_remove p).
  - by rewrite (view_all_entries_db_pres _ _ _ Hd).
Qed.

Lemma loop_step_inv p p' : loop_step p p' -> I (database p) -> I (database p').
Proof.
  intros [f c ? p1 ? Hc Hd] HI. apply (dispatch_inv c p1); [done|].
  assert (db_pres (display_prompt (T:=T) ;; take_input_and_verify f)) as Hdp.
  { apply (preserves_bind same_db); [apply display_prompt_db_pres|intros; apply take_input_db_pres]. }
  by rewrite (Hdp _ _ _ Hc).
Qed.

Lemma reachable_inv (input : list input) p :
  rtc loop_step (initial_proc input) p -> I (database p).
Proof.
  intros Hr. eapply (rtc_ind_r (fun q => I (database q))); [| |exact Hr].
  - exact I_new.
  - intros p1 p2 _ Hstep IH. by apply (loop_step_inv p1).
Qed.
End loop_invariant.

Section loop_wf.
Context `{MultiMapLaws T}.
Local Abbreviation P := (Proc T).
Implicit Types (p : P).

(** The store invariant (no key maps to an empty vector) holds in
    every state the command loop returns to, starting from the empty
    store: by induction on the iterations. *)
Lemma reachable_wf (input : list input) p :
  rtc loop_step (initial_proc input) p -> mm_wf (database p).
Proof.
  apply reachable_inv; eauto using mm_wf_get_mut_write with rs.
Qed.

(** The loop is the iteration of [loop_step]: after one iteration
    that returns to the menu, [program_loop] continues with one unit of
    budget less, from the state the iteration reached. *)
Lemma program_loop_step (f : nat) p c p1 p2 :
  (display_prompt ;; take_input_and_verify f) p = Done c p1 ->
  dispatch c p1 = Done tt p2 ->
  program_loop (S f) p = program_loop f p2.
Proof.
  intros Hc Hd. rewrite program_loop_S. unfold bind in *.
  destruct (display_prompt p); [|discriminate..]. by rewrite Hc, Hd.
Qed.
End loop_wf.

(** ** Concrete runs of the whole program *)

(** Console lines as typed, each with its terminator. *)
Definition lines (l : list string) : list input := map (fun s => Line (s +:+ LF)) l.

(** The output lines that show entries of the key [k]. *)
Definition entry_lines_of (k : string) (out : list string) : list string :=
  filter (fun l => String.prefix (k +:+ " ") l = true) out.

(** The spec's scenarios D, A, B and C (section 8), typed at the menu one
    after the other: select "missing" on the empty store, insert "red" and
    "blue" under "color" and select it, update "color" to "green" and
    select it, delete "color" and select it. *)
Definition scenario_input : list input :=
  lines ["2"; "missing";
         "1"; "color"; "red"; "1"; "color"; "blue"; "2"; "color";
         "3"; "color"; "green"; "2"; "color";
         "4"; "color"; "2"; "color"].

(** Scenario E: three inserts over two keys, then "view all". *)
Definition scenario_e_input : list input :=
  lines ["1"; "a"; "1"; "1"; "b"; "2"; "1"; "a"; "3"; "5"].

(** The spec's scenarios A to D run through [main]: the two values
    of "color" are listed in insertion order, the update replaces only
    the first, the delete removes the key, and selecting a missing key
    reports it; at the end of the input the program does not stop. *)
Example spec_scenarios_run :
  exists p,
    main (T:=MultiMap) 12 scenario_input = NoFuel p /\
    stdin p = [] /\ mm_get_vec "color" (database p) = None /\
    entry_lines_of "color" (stdout p) =
      [entry_line "color" "red" +:+ LF; entry_line "color" "blue" +:+ LF;
       entry_line "color" "green" +:+ LF; entry_line "color" "blue" +:+ LF] /\
    length (filter (fun l => l = no_such_key_msg +:+ LF) (stdout p)) = 2.
Proof. eexists. split; [vm_compute; reflexivity|]. vm_compute. repeat split. Qed.

(** Scenario E: "view all" lists the values of each key in insertion
    order. *)
Example spec_scenario_e_run :
  exists p,
    main (T:=MultiMap) 6 scenario_e_input = NoFuel p /\
    entry_lines_of "a" (stdout p) = [entry_line "a" "1" +:+ LF; entry_line "a" "3" +:+ LF] /\
    entry_lines_of "b" (stdout p) = [entry_line "b" "2" +:+ LF].
Proof. eexists. split; [vm_compute; reflexivity|]. vm_compute. repeat split. Qed.

(** ** Witnesses *)

Lemma program_loop_eof_witness :
  stdin (initial_proc (T:=MultiMap) []) = [] /\
  exists p', program_loop 4 (initial_proc (T:=MultiMap) []) = NoFuel p'.
Proof. split; [reflexivity|]. apply program_loop_eof. reflexivity. Defined.

Lemma program_loop_never_returns_witness :
  program_loop 4 (initial_proc (T:=MultiMap) (lines ["5"])) <>
  Done tt (initial_proc (T:=MultiMap) (lines ["5"])).
Proof. apply program_loop_never_returns. Defined.

