(* ===== verification/Trimmed.v ===== *)
(** * Every key and value in the store is a trimmed string

    The handlers pass every key and value they read through [str::trim]
    before it reaches the store ([key.trim().to_string()],
    [value.trim().to_string()]), and [trim] is idempotent.  So the store's
    strings have a type finer than [String]: no key and no value starts or
    ends with white space.  [stored_trimmed] states it, the store updates
    the handlers make preserve it, and it holds in every state the command
    loop reaches. *)

From S2P Require Import Prelude RustStr Trim MultiMap Console Menu Handlers Loop.

(** A string [trim] leaves unchanged. *)
Definition trimmed (s : string) : Prop := trim s = s.

#[export] Instance trimmed_dec s : Decision (trimmed s).
Proof. unfold trimmed. apply _. Defined.

Definition stored_trimmed `{MultiMapOps T} (db : T) : Prop :=
  forall k vs, mm_get_vec k db = Some vs -> trimmed k /\ Forall trimmed vs.

Lemma trimmed_trim s : trimmed (trim s).
Proof. apply trim_idem. Qed.

Lemma Forall_trimmed_replace_head v (vs : list string) :
  Forall trimmed vs -> Forall trimmed (replace_head (trim v) vs).
Proof. destruct vs; [done|]. intros [_ Hvs]%Forall_cons. constructor; [apply trimmed_trim|done]. Qed.

Section store_trimmed.
Context `{MultiMapLaws T}.
Implicit Types (db : T) (k v : string).

Lemma stored_trimmed_new : stored_trimmed (mm_new : T).
Proof. intros k vs. by rewrite mm_get_vec_new. Qed.

Lemma stored_trimmed_insert k v db :
  stored_trimmed db -> stored_trimmed (mm_insert (trim k) (trim v) db).
Proof.
  intros Ht k' vs. rewrite mm_get_vec_insert. case_decide as Hk; [|apply Ht].
  intros [= <-]. subst k'. split; [apply trimmed_trim|].
  apply Forall_app. split; [|constructor; [apply trimmed_trim|done]].
  destruct (mm_get_vec (trim k) db) as [old|] eqn:Hold; [|done]. by apply (Ht _ _ Hold).
Qed.

Lemma stored_trimmed_write k v db db' :
  stored_trimmed db -> mm_get_mut_write (trim k) (trim v) db = Some db' -> stored_trimmed db'.
Proof.
  intros Ht Hw k' vs. rewrite (mm_get_mut_write_Some _ _ _ _ Hw).
  case_decide as Hk; [subst k'|apply Ht].
  destruct (mm_get_vec (trim k) db) as [old|] eqn:Hold; intros [= <-].
  destruct (Ht _ _ Hold) as [Hkt Hold_t]. split; [done|].
  by apply Forall_trimmed_replace_head.
Qed.

Lemma stored_trimmed_remove k db : stored_trimmed db -> stored_trimmed (mm_remove k db).2.
Proof. intros Ht k' vs. rewrite mm_get_vec_remove. case_decide; [done|apply Ht]. Qed.
End store_trimmed.

Section reachable_trimmed.
Context `{MultiMapLaws T}.
Local Abbreviation P := (Proc T).

(** C17. In every state the command loop reaches, every key of the store
    and every value stored under it is its own [trim]: it neither starts
    nor ends with white space. *)
Theorem reachable_trimmed (input : list input) (p : P) :
  rtc loop_step (initial_proc input) p -> stored_trimmed (database p).
Proof.
  apply reachable_inv;
    eauto using stored_trimmed_new, stored_trimmed_insert, stored_trimmed_write,
      stored_trimmed_remove.
Qed.
End reachable_trimmed.

Lemma reachable_trimmed_witness :
  let inp := lines ["1"; " color "; " red"] in
  let p1 := state_of ((display_prompt ;; take_input_and_verify 1) (initial_proc (T:=MultiMap) inp)) in
  let p2 := state_of (dispatch Create p1) in
  rtc loop_step (initial_proc inp) p2 /\ stored_trimmed (database p2).
Proof.
  intros inp p1 p2.
  assert (rtc loop_step (initial_proc inp) p2) as Hr.
  { apply rtc_once. apply (loop_step_intro 1 Create _ p1); vm_compute; reflexivity. }
  split; [exact Hr|]. exact (reachable_trimmed inp p2 Hr).
Defined.
