(* ===== verification/Sessions.v ===== *)
(** * Sequences of operations: the testable properties of the spec

    Section 8 of the spec states its properties as sequences of store
    operations: values inserted under a key are listed by [lookup] in
    insertion order (round trip for a new key, multiplicity for a key
    inserted twice), [replace_first] changes only the first value,
    [remove] makes the key [NotFound].  This file proves them of the
    program itself: sequences of handler runs reading the console lines a
    user would type, for any store with the [MultiMap] laws. *)

From S2P Require Import Prelude RustStr Trim MultiMap Console Handlers.

(** What [create_entry] prints. *)
Definition create_msgs : list string :=
  ["Enter key: " +:+ LF; "Enter value: " +:+ LF; "Entry stored successfully!" +:+ LF].

(** The console lines of one Create: the key, then the value. *)
Definition create_lines (k v : string) : list input := [Line k; Line v].

Section sessions.
Context `{MultiMapLaws T}.
Local Abbreviation P := (Proc T).
Implicit Types (p : P) (k v : string).

Lemma create_entry_run p k v rest :
  stdin p = Line k :: Line v :: rest ->
  create_entry p =
    Done tt (mkProc (mm_insert (trim k) (trim v) (database p)) rest (stdout p ++ create_msgs)).
Proof. intros Hin. run_handler p Hin. by rewrite <- !app_assoc. Qed.

(** [n] Creates under the same key typed one after the other. *)
Lemma creates_run p k (vals : list string) rest :
  stdin p = flat_map (create_lines k) vals ++ rest ->
  for_each vals (fun _ => create_entry) p =
    Done tt (mkProc (foldl (fun db v => mm_insert (trim k) (trim v) db) (database p) vals) rest
               (stdout p ++ flat_map (fun _ => create_msgs) vals)).
Proof.
  revert p. induction vals as [|v vals IH]; intros p Hin;
    cbn [flat_map for_each create_lines foldl app] in Hin |- *.
  - rewrite app_nil_r. by destruct p; simpl in *; subst.
  - erewrite bind_Done by (apply create_entry_run; exact Hin).
    rewrite IH by done. simpl. by rewrite <- app_assoc.
Qed.

Lemma get_vec_inserts k (vals : list string) (db : T) :
  vals <> [] ->
  mm_get_vec (trim k) (foldl (fun db v => mm_insert (trim k) (trim v) db) db vals) =
  Some (default [] (mm_get_vec (trim k) db) ++ map trim vals).
Proof.
  revert db. induction vals as [|v vals IH]; intros db Hne; [done|]. cbn [foldl].
  destruct vals as [|v' vals'].
  - cbn [foldl map]. by rewrite mm_get_vec_insert_eq.
  - rewrite IH by done. rewrite mm_get_vec_insert_eq. simpl. by rewrite <- app_assoc.
Qed.

(** C12. Insertion order, multiplicity and round trip (spec section 8):
    after any non-empty sequence of Creates under one key, a Select of
    that key (typed with any surrounding white space) lists the key's
    earlier values followed by the new ones, in the order they were
    typed, each trimmed.  On a new key it lists exactly the new values. *)
Theorem creates_then_select p k k' (vals : list string) rest :
  vals <> [] -> trim k' = trim k ->
  stdin p = flat_map (create_lines k) vals ++ Line k' :: rest ->
  exists db',
    (for_each vals (fun _ => create_entry) ;; select_entry) p =
      Done tt (mkProc db' rest
                 (stdout p ++ flat_map (fun _ => create_msgs) vals ++ ["Enter key: " +:+ LF] ++
                  map (fun value => entry_line (trim k) value +:+ LF)
                    (default [] (mm_get_vec (trim k) (database p)) ++ map trim vals))) /\
    mm_get_vec (trim k) db' = Some (default [] (mm_get_vec (trim k) (database p)) ++ map trim vals).
Proof.
  intros Hne Hk Hin. eexists. split; [|by apply get_vec_inserts].
  erewrite bind_Done by (apply creates_run; exact Hin).
  rewrite (select_entry_found _ k' rest (default [] (mm_get_vec (trim k) (database p)) ++ map trim vals))
    ; [|done|simpl; rewrite Hk; by apply get_vec_inserts].
  simpl. by rewrite Hk, <- !app_assoc.
Qed.
(** C13. [replace_first] changes only the first value (spec section 8,
    scenario B): on a key with values [vs], an Update to [v] followed by
    a Select of the key lists [v] (trimmed) in place of the first value
    and the later values unchanged, after the caution when the key had
    more than one value. *)
Theorem update_then_select p k k' v rest vs :
  mm_wf (database p) -> trim k' = trim k ->
  stdin p = Line k :: Line v :: Line k' :: rest ->
  mm_get_vec (trim k) (database p) = Some vs ->
  exists db',
    (update_entry ;; select_entry) p =
      Done tt (mkProc db' rest
                 (stdout p ++ ["Enter key: " +:+ LF] ++
                  (if (1 <? length vs)%nat then [caution_msg +:+ LF] else []) ++
                  ["Enter updated value: " +:+ LF; "Entry updated successfully." +:+ LF] ++
                  ["Enter key: " +:+ LF] ++
                  map (fun value => entry_line (trim k) value +:+ LF) (replace_head (trim v) vs))) /\
    mm_get_vec (trim k) db' = Some (replace_head (trim v) vs).
Proof.
  intros Hwf Hk Hin Hvs.
  destruct (update_entry_found p k v (Line k' :: rest) vs Hwf Hin Hvs) as (db' & Hrun & Hdb' & _).
  exists db'. split; [|done].
  erewrite bind_Done by exact Hrun.
  rewrite (select_entry_found _ k' rest (replace_head (trim v) vs)); [|done|by rewrite Hk].
  cbn [stdout database]. by rewrite Hk, <- !app_assoc.
Qed.

(** C14. [remove] makes the key [NotFound] (spec section 8, scenario
    C): a Delete of a key of the store followed by a Select of it prints
    "No such key exists.", and no other key changes. *)
Theorem delete_then_select p k k' rest vs :
  trim k' = trim k ->
  stdin p = Line k :: Line k' :: rest ->
  mm_get_vec (trim k) (database p) = Some vs ->
  exists db',
    (delete_entry ;; select_entry) p =
      Done tt (mkProc db' rest
                 (stdout p ++ ["Enter key: " +:+ LF; "Entry deleted successfully." +:+ LF;
                               "Enter key: " +:+ LF; no_such_key_msg +:+ LF])) /\
    forall k'', k'' <> trim k -> mm_get_vec k'' db' = mm_get_vec k'' (database p).
Proof.
  intros Hk Hin Hvs.
  destruct (delete_entry_found p k (Line k' :: rest) vs Hin Hvs) as (db' & Hrun & Hnone & Hother).
  exists db'. split; [|done].
  erewrite bind_Done by exact Hrun.
  rewrite (absent_key_run select_entry _ k' rest); [|by right; left|done|by rewrite Hk].
  cbn [stdout database]. by rewrite <- !app_assoc.
Qed.
End sessions.

(** ** Witnesses: the spec's scenarios A, B and C *)

Lemma creates_then_select_witness :
  let p := mkProc (T:=MultiMap) mm_new
             (flat_map (create_lines ("color" +:+ LF)) ["red" +:+ LF; "blue" +:+ LF] ++
              [Line (" color " +:+ LF)]) [] in
  ["red" +:+ LF; "blue" +:+ LF] <> [] /\ trim (" color " +:+ LF) = trim ("color" +:+ LF) /\
  exists db',
    (for_each ["red" +:+ LF; "blue" +:+ LF] (fun _ => create_entry) ;; select_entry) p =
      Done tt (mkProc db' []
                 (stdout p ++ flat_map (fun _ => create_msgs) ["red" +:+ LF; "blue" +:+ LF] ++
                  ["Enter key: " +:+ LF] ++
                  map (fun value => entry_line (trim ("color" +:+ LF)) value +:+ LF)
                    (default [] (mm_get_vec (trim ("color" +:+ LF)) (database p)) ++
                     map trim ["red" +:+ LF; "blue" +:+ LF]))) /\
    mm_get_vec (trim ("color" +:+ LF)) db' =
      Some (default [] (mm_get_vec (trim ("color" +:+ LF)) (database p)) ++
            map trim ["red" +:+ LF; "blue" +:+ LF]).
Proof.
  intros p. split; [done|]. split; [reflexivity|].
  exact (creates_then_select p ("color" +:+ LF) (" color " +:+ LF) ["red" +:+ LF; "blue" +:+ LF] []
           ltac:(done) eq_refl eq_refl).
Defined.

Lemma update_then_select_witness :
  let p := mkProc color_db [Line ("color" +:+ LF); Line ("green" +:+ LF); Line ("color" +:+ LF)] [] in
  mm_wf (database p) /\ mm_get_vec (trim ("color" +:+ LF)) (database p) = Some ["red"; "blue"] /\
  exists db',
    (update_entry ;; select_entry) p =
      Done tt (mkProc db' []
                 (stdout p ++ ["Enter key: " +:+ LF] ++
                  (if (1 <? length ["red"; "blue"])%nat then [caution_msg +:+ LF] else []) ++
                  ["Enter updated value: " +:+ LF; "Entry updated successfully." +:+ LF] ++
                  ["Enter key: " +:+ LF] ++
                  map (fun value => entry_line (trim ("color" +:+ LF)) value +:+ LF)
                    (replace_head (trim ("green" +:+ LF)) ["red"; "blue"]))) /\
    mm_get_vec (trim ("color" +:+ LF)) db' = Some (replace_head (trim ("green" +:+ LF)) ["red"; "blue"]).
Proof.
  intros p.
  assert (mm_wf (database p)) as Hwf.
  { apply mm_wf_insert, mm_wf_insert, mm_wf_new. }
  split; [exact Hwf|]. split; [reflexivity|].
  exact (update_then_select p ("color" +:+ LF) ("color" +:+ LF) ("green" +:+ LF) [] ["red"; "blue"]
           Hwf eq_refl eq_refl eq_refl).
Defined.

Lemma delete_then_select_witness :
  let p := mkProc color_db [Line ("color" +:+ LF); Line ("color " +:+ LF)] [] in
  mm_get_vec (trim ("color" +:+ LF)) (database p) = Some ["red"; "blue"] /\
  exists db',
    (delete_entry ;; select_entry) p =
      Done tt (mkProc db' []
                 (stdout p ++ ["Enter key: " +:+ LF; "Entry deleted successfully." +:+ LF;
                               "Enter key: " +:+ LF; no_such_key_msg +:+ LF])) /\
    forall k'', k'' <> trim ("color" +:+ LF) -> mm_get_vec k'' db' = mm_get_vec k'' (database p).
Proof.
  intros p. split; [reflexivity|].
  exact (delete_then_select p ("color" +:+ LF) ("color " +:+ LF) [] ["red"; "blue"]
           eq_refl eq_refl eq_refl).
Defined.
