(* ===== verification/Refinement.v ===== *)
(** * The handlers and the loop refine the spec's operations

    Section 4.2 of the spec describes each menu operation as a thin
    adapter over the abstract store of [StoreSpec.v]: Create calls
    [insert] on the key and value it reads; Select and View All change
    nothing; Update reads a key, stops with "no such key" when [lookup]
    fails, and otherwise reads a value and calls [replace_first]; Delete
    calls [remove].  [spec_command] states that on the insertion log, with
    the same console lines consumed (a read at end of input gives the empty
    line, a read error aborts).  [dispatch_refines] shows that every
    handler of [Handlers.v], run on a store that represents a log, returns
    exactly when the spec's operation succeeds, consumes the same input,
    and leaves a store that represents the log the spec's operation
    produces; it panics exactly when the spec's operation aborts.  The
    loop's iterations are then steps of the spec's command machine
    [spec_step], from the empty log. *)

From S2P Require Import Prelude RustStr Trim MultiMap StoreSpec Console Menu Handlers Loop.

(** One line of input as the operations read it: [None] is a read error. *)
Definition spec_read (inp : list input) : option (string * list input) :=
  match inp with
  | [] => Some (EmptyString, [])
  | Line s :: rest => Some (s, rest)
  | ReadError :: _ => None
  end.

Definition spec_command (c : Choice) (s : spec_store) (inp : list input)
    : option (spec_store * list input) :=
  match c with
  | Create =>
      match spec_read inp with
      | None => None
      | Some (k, inp1) =>
          match spec_read inp1 with
          | None => None
          | Some (v, inp2) => Some (spec_insert (trim k) (trim v) s, inp2)
          end
      end
  | Select =>
      match spec_read inp with None => None | Some (_, inp1) => Some (s, inp1) end
  | Update =>
      match spec_read inp with
      | None => None
      | Some (k, inp1) =>
          match spec_lookup (trim k) s with
          | None => Some (s, inp1)
          | Some _ =>
              match spec_read inp1 with
              | None => None
              | Some (v, inp2) =>
                  match spec_replace_first (trim k) (trim v) s with
                  | None => None
                  | Some s' => Some (s', inp2)
                  end
              end
          end
      end
  | Delete =>
      match spec_read inp with
      | None => None
      | Some (k, inp1) =>
          match spec_remove (trim k) s with
          | None => Some (s, inp1)
          | Some s' => Some (s', inp1)
          end
      end
  | ViewAll => Some (s, inp)
  end.

(** One iteration of the spec's command loop (sections 4.2 and 4.3): a
    selection line, trimmed and parsed as an integer in [1..=5], names a
    command ([Choice_from_i32] maps [n - 1] to it), and the command runs
    on the rest of the input. *)
Inductive spec_step : spec_store * list input -> spec_store * list input -> Prop :=
  | spec_step_intro s sel rest n c s' inp' :
      parse_i32_spec (trim sel) = Some n -> (1 <= n <= 5)%Z ->
      Choice_from_i32 (n - 1) = Some c ->
      spec_command c s rest = Some (s', inp') ->
      spec_step (s, Line sel :: rest) (s', inp').

Ltac refine_cbn :=
  cbn -[trim mm_insert mm_get_vec mm_contains_key mm_get_mut_write mm_remove mm_iter for_each
        spec_lookup spec_replace_first spec_insert view_all_entries].

(** One step of the symbolic comparison of a handler with the spec's
    operation, on a store that represents the log. *)
Ltac refine_step Href :=
  match type of Href with
  | refines ?db ?s =>
    first
    [ progress unfold spec_remove
    | match goal with
      | |- context [spec_lookup ?k s] =>
          destruct (spec_lookup k s) as [[|?x [|?y ?ys]]|] eqn:?Hl;
            [exfalso; by eapply spec_lookup_not_empty|..]
      end
    | rewrite for_each_println
    | rewrite view_all_entries_run
    | match goal with
      | |- context [mm_get_mut_write ?k ?v db] =>
          let Hg := fresh "Hg" in
          pose proof (refines_get_mut_write db s k v Href) as Hg;
          destruct (mm_get_mut_write k v db), (spec_replace_first k v s); try contradiction
      end ]
  end.

Section refine.
Context `{MultiMapLaws T}.
Local Abbreviation P := (Proc T).

Lemma dispatch_refines_aux c (p : P) s :
  refines (database p) s ->
  match dispatch c p, spec_command c s (stdin p) with
  | Done _ p', Some (s', inp') => stdin p' = inp' /\ refines (database p') s'
  | Panic _ _, None => True
  | _, _ => False
  end.
Proof.
  intros Href. destruct p as [db inp out]; cbn [database stdin] in *.
  destruct c; destruct inp as [|[s1|] [|[s2|] inp]]; refine_cbn;
    rewrite ?(refines_contains_key _ _ _ Href), ?Href;
    repeat (refine_step Href; refine_cbn);
    try (split; [done|]); eauto using refines_insert, refines_remove_present.
Qed.
End refine.

Section refine_loop.
Context `{MultiMapLaws T}.
Local Abbreviation P := (Proc T).
Implicit Types (p : P) (s : spec_store).

(** C7. Every handler implements the spec's operation on the abstract
    store: on a store representing a log, it returns exactly when the
    spec's operation succeeds, consumes the same input lines and leaves a
    store representing the log the operation produces; it panics exactly
    when the operation aborts on a read error. *)
Theorem dispatch_refines c p s :
  refines (database p) s ->
  match dispatch c p, spec_command c s (stdin p) with
  | Done _ p', Some (s', inp') => stdin p' = inp' /\ refines (database p') s'
  | Panic _ _, None => True
  | _, _ => False
  end.
Proof. apply dispatch_refines_aux. Qed.

Lemma display_take_inv f p c p1 :
  (display_prompt ;; take_input_and_verify f) p = Done c p1 ->
  exists sel rest n,
    stdin p = Line sel :: rest /\ parse_choice sel = Some n /\ (1 <= n <= 5)%Z /\
    Choice_from_i32 (n - 1) = Some c /\ stdin p1 = rest /\ database p1 = database p.
Proof.
  rewrite (bind_Done _ _ _ _ _ (display_prompt_output p)). intros Ht.
  destruct (take_input_Done_inv _ _ _ _ Ht) as (sel & rest & n & Hin & Hs & Hn & Hc & ->).
  by exists sel, rest, n.
Qed.

Lemma loop_step_refines p p' s :
  refines (database p) s -> loop_step p p' ->
  exists s', spec_step (s, stdin p) (s', stdin p') /\ refines (database p') s'.
Proof.
  intros Href Hstep. inversion Hstep as [f c ? p1 ? Hc Hd]; subst.
  destruct (display_take_inv _ _ _ _ Hc) as (sel & rest & n & Hin & Hs & Hn & Hcn & Hr & Hdb).
  pose proof (dispatch_refines_aux c p1 s) as Hm. rewrite Hdb, Hd, Hr in Hm.
  destruct (spec_command c s rest) as [[s' inp']|] eqn:Hsc; [|by destruct (Hm Href)].
  destruct (Hm Href) as [<- Href']. exists s'. split; [|done].
  rewrite Hin. apply (spec_step_intro _ _ _ n c); [|done..].
  rewrite <- Hs. symmetry. apply from_str_i32_spec.
Qed.

Lemma spec_step_implemented p s s' inp' :
  refines (database p) s -> spec_step (s, stdin p) (s', inp') ->
  exists p', loop_step p p' /\ stdin p' = inp' /\ refines (database p') s'.
Proof.
  intros Href Hstep. inversion Hstep as [? sel rest n c ? ? Hs Hn Hc Hsc Hin]; subst.
  assert (parse_choice sel = Some n) as Hs'.
  { rewrite <- Hs. apply from_str_i32_spec. }
  set (p1 := mkProc (database p) rest (stdout p ++ menu_lines ++ ["> "])).
  assert ((display_prompt ;; take_input_and_verify 1) p = Done c p1) as Ht.
  { rewrite (bind_Done _ _ _ _ _ (display_prompt_output p)).
    rewrite (take_input_accepts 0 _ sel rest n c) by done. unfold p1. cbn.
    by rewrite <- app_assoc. }
  pose proof (dispatch_refines_aux c p1 s Href) as Hm. cbn [stdin p1] in Hm.
  rewrite Hsc in Hm. destruct (dispatch c p1) as [[] p'|? ?|?] eqn:Hd; [|done..].
  destruct Hm as [Hin' Href']. exists p'. split; [|done].
  by apply (loop_step_intro 1 c p p1).
Qed.

(** C8. Refinement of the whole loop: every state the command loop
    returns to from the start represents a log that the spec's command
    machine reaches on the same input, with the same input left. *)
Theorem reachable_refines (input : list input) p :
  rtc loop_step (initial_proc input) p ->
  exists s, rtc spec_step (spec_empty, input) (s, stdin p) /\ refines (database p) s.
Proof.
  intros Hr. eapply (rtc_ind_r (fun q => exists s, rtc spec_step (spec_empty, input) (s, stdin q)
                                                   /\ refines (database q) s)); [| |exact Hr].
  - exists spec_empty. split; [done|apply refines_new].
  - intros p1 p2 _ Hstep (s & Hs & Href).
    destruct (loop_step_refines _ _ _ Href Hstep) as (s' & Hs' & Href').
    exists s'. split; [|done]. eapply rtc_r; eauto.
Qed.

(** C9. Conversely, every run of the spec's command machine from the
    empty log is carried out by the loop: some sequence of iterations
    reaches a state with the same input left whose store represents the
    spec's log. *)
Theorem spec_reachable_implemented (input : list input) s inp' :
  rtc spec_step (spec_empty, input) (s, inp') ->
  exists p, rtc loop_step (initial_proc input) p /\ stdin p = inp' /\ refines (database p) s.
Proof.
  intros Hr.
  cut (exists p, rtc loop_step (initial_proc input) p /\ stdin p = (s, inp').2 /\
                 refines (database p) (s, inp').1); [done|].
  eapply (rtc_ind_r (fun b => exists p, rtc loop_step (initial_proc input) p /\
                                stdin p = b.2 /\ refines (database p) b.1)); [| |exact Hr].
  - exists (initial_proc input). split; [done|]. split; [done|apply refines_new].
  - intros [s1 inp1] [s2 inp2] _ Hstep (p1 & Hp1 & Hin1 & Href1). simpl in *. subst inp1.
    destruct (spec_step_implemented _ _ _ _ Href1 Hstep) as (p2 & Hstep' & Hin2 & Href2).
    exists p2. split; [eapply rtc_r; eauto|done].
Qed.
End refine_loop.

(** ** [view_all_entries] lists the log *)
Section view_all.
Context `{MultiMapLaws T}.
Local Abbreviation P := (Proc T).
Implicit Types (db : T) (s : spec_store).

Lemma flat_entries_fst (l : list (string * list string)) (g : string -> list string) :
  (forall k vs, (k, vs) ∈ l -> vs = g k) ->
  flat_map (fun '(key, values) => map (fun value => (key, value)) values) l =
  flat_map (fun k => map (fun v => (k, v)) (g k)) l.*1.
Proof.
  induction l as [|[k vs] l IH]; intros Hg; [done|]. cbn [flat_map fmap list_fmap fst].
  rewrite (Hg k vs) by (apply elem_of_cons; by left). f_equal.
  apply IH. intros k' vs' Hin. apply Hg, elem_of_cons. by right.
Qed.

(** The pairs the nested loops visit are the log's pairs, reordered. *)
Lemma all_entries_refines db s : refines db s -> all_entries db ≡ₚ s.
Proof.
  intros Href. unfold all_entries. rewrite (flat_entries_fst _ (fun k => spec_values k s)).
  - symmetry. apply spec_grouped; [apply mm_iter_NoDup|]. intros [k v] Hin. simpl.
    apply elem_of_spec_values in Hin.
    assert (mm_get_vec k db = Some (spec_values k s)) as Hk.
    { rewrite Href. unfold spec_lookup. revert Hin.
      destruct (spec_values k s); [by intros ?%not_elem_of_nil|done]. }
    apply list_elem_of_fmap. exists (k, spec_values k s). split; [done|].
    by apply mm_elem_of_iter.
  - intros k vs Hin. apply mm_elem_of_iter in Hin. rewrite Href in Hin.
    unfold spec_lookup in Hin. revert Hin. by destruct (spec_values k s); intros [= ->].
Qed.

(** C11. View All implements the spec's [all_entries]: on a store that
    represents a log, [view_all_entries] prints one line
    ["<key> <value>"] per entry of the log and nothing else, in an order
    that is a permutation of the log's, and changes nothing. *)
Theorem view_all_refines (p : P) s :
  refines (database p) s ->
  exists out,
    view_all_entries p = Done tt (set_stdout (stdout p ++ out) p) /\
    out ≡ₚ map (fun '(k, v) => entry_line k v +:+ LF) s.
Proof.
  intros Href. eexists. split; [apply view_all_entries_run|].
  f_equiv. by apply all_entries_refines.
Qed.
End view_all.

(** ** Witnesses *)

Definition color_log : spec_store := spec_insert "color" "blue" (spec_insert "color" "red" spec_empty).

Lemma color_db_refines : refines color_db color_log.
Proof. unfold color_db, color_log. apply refines_insert, refines_insert, refines_new. Qed.

Lemma dispatch_refines_witness :
  refines color_db color_log /\
  match dispatch Update (mkProc color_db [Line ("color" +:+ LF); Line ("green" +:+ LF)] []),
        spec_command Update color_log [Line ("color" +:+ LF); Line ("green" +:+ LF)] with
  | Done _ p', Some (s', inp') => stdin p' = inp' /\ refines (database p') s'
  | Panic _ _, None => True
  | _, _ => False
  end.
Proof.
  split; [exact color_db_refines|].
  exact (dispatch_refines Update (mkProc color_db [Line ("color" +:+ LF); Line ("green" +:+ LF)] [])
           color_log color_db_refines).
Defined.

Lemma reachable_refines_witness :
  let inp := lines ["1"; "color"; "red"] in
  let p1 := state_of ((display_prompt ;; take_input_and_verify 1) (initial_proc (T:=MultiMap) inp)) in
  let p2 := state_of (dispatch Create p1) in
  rtc loop_step (initial_proc inp) p2 /\
  exists s, rtc spec_step (spec_empty, inp) (s, stdin p2) /\ refines (database p2) s.
Proof.
  intros inp p1 p2.
  assert (rtc loop_step (initial_proc inp) p2) as Hr.
  { apply rtc_once. apply (loop_step_intro 1 Create _ p1); vm_compute; reflexivity. }
  split; [exact Hr|]. exact (reachable_refines inp p2 Hr).
Defined.

Lemma spec_reachable_implemented_witness :
  rtc spec_step (spec_empty, lines ["1"; "color"; "red"])
      (spec_insert (trim ("color" +:+ LF)) (trim ("red" +:+ LF)) spec_empty, []) /\
  exists p : Proc MultiMap,
    rtc loop_step (initial_proc (lines ["1"; "color"; "red"])) p /\ stdin p = [] /\
    refines (database p) (spec_insert (trim ("color" +:+ LF)) (trim ("red" +:+ LF)) spec_empty).
Proof.
  assert (rtc spec_step (spec_empty, lines ["1"; "color"; "red"])
            (spec_insert (trim ("color" +:+ LF)) (trim ("red" +:+ LF)) spec_empty, [])) as Hr.
  { apply rtc_once. apply (spec_step_intro _ _ _ 1 Create); [reflexivity|lia|reflexivity..]. }
  split; [exact Hr|]. exact (spec_reachable_implemented _ _ _ Hr).
Defined.

Lemma view_all_refines_witness :
  refines color_db color_log /\
  exists out,
    view_all_entries (mkProc color_db [] []) =
      Done tt (set_stdout (stdout (mkProc (T:=MultiMap) color_db [] []) ++ out) (mkProc color_db [] [])) /\
    out ≡ₚ map (fun '(k, v) => entry_line k v +:+ LF) color_log.
Proof.
  split; [exact color_db_refines|].
  exact (view_all_refines (mkProc color_db [] []) color_log color_db_refines).
Defined.
