(* ===== verification/Termination.v ===== *)
(** * Termination: what ends, and what makes it end

    [program_loop] never returns ([Loop.v]) and [take_input_and_verify]
    recurses once per rejected line.  What does end is measured by the
    input: the retry chain of [take_input_and_verify] stops exactly when it
    reaches a valid line, given one unit of call depth per line read, and
    every iteration of the command loop that returns to the menu consumes
    at least the selection line.  So on a finite input the loop completes
    at most as many iterations as there are lines
    ([loop_iterations_bounded]), the length of the unread input being the
    measure that every iteration decreases. *)

From S2P Require Import Prelude RustStr Trim MultiMap Console Menu Handlers Loop.

Section take_input_termination.
Context {T : Type}.
Local Abbreviation P := (Proc T).
Implicit Types (p : P).

(** C16. The retry chain of [take_input_and_verify] on [k] rejected
    lines followed by a valid one needs exactly [k + 1] nested calls:
    with a budget of [k] it runs out, with any budget of at least [k + 1]
    it ends, having read up to and including the valid line.  It returns
    the [Choice] when [k = 0] and panics otherwise. *)
Theorem take_input_terminates (f : nat) p (bad : list string) s rest n c :
  stdin p = map Line bad ++ Line s :: rest ->
  Forall (fun b => rejected (parse_choice b)) bad ->
  parse_choice s = Some n -> (1 <= n <= 5)%Z -> Choice_from_i32 (n - 1) = Some c ->
  (exists p', take_input_and_verify (length bad) p = NoFuel p') /\
  match take_input_and_verify (length bad + S f) p with
  | Done c' p' => bad = [] /\ c' = c /\ stdin p' = rest
  | Panic _ p' => bad <> [] /\ stdin p' = rest
  | NoFuel _ => False
  end.
Proof.
  intros Hin Hbad Hs Hn Hc. revert p Hin.
  induction Hbad as [|b bad Hb Hbad IH]; intros p Hin; cbn [length Nat.add map app] in Hin |- *.
  - split; [by eexists|]. by rewrite (take_input_accepts f p s rest n c).
  - rewrite !(take_input_rejected_step _ p b _ Hin Hb).
    destruct (IH (mkProc (database p) (map Line bad ++ Line s :: rest)
                    (stdout p ++ ["> "; invalid_input_msg +:+ LF])) eq_refl)
      as [[p0 H0] Hrun].
    split; [exists p0; by apply bind_NoFuel|].
    destruct (take_input_and_verify (length bad + S f) _) as [c' p'|msg p'|p'] eqn:E;
      [|erewrite bind_Panic by exact E; naive_solver|done].
    destruct (convert_choice_rejected (parse_choice b) p' Hb) as [msg Hm].
    erewrite bind_Done by exact E. rewrite Hm. naive_solver.
Qed.
End take_input_termination.

Section loop_termination.
Context `{MultiMapOps T}.
Local Abbreviation P := (Proc T).
Implicit Types (p : P).

(** Every handler only consumes input. *)
Lemma dispatch_consumes c : preserves input_suffix (dispatch (T:=T) c).
Proof.
  destruct c; simpl;
    [unfold create_entry|unfold update_entry|unfold select_entry|unfold delete_entry
    |unfold view_all_entries]; solve_preserves.
Qed.

(** An iteration reads at least its selection line. *)
Lemma loop_step_consumes p p' :
  loop_step p p' -> length (stdin p') < length (stdin p).
Proof.
  intros [f c ? p1 ? Hc Hd].
  rewrite (bind_Done _ _ _ _ _ (display_prompt_output _)) in Hc.
  destruct (take_input_Done_inv _ _ _ _ Hc) as (s & rest & n & Hin & _ & _ & _ & ->).
  pose proof (preserves_stdin _ _ _ _ (dispatch_consumes c) Hd) as Hle.
  simpl in Hin, Hle. rewrite Hin. simpl. lia.
Qed.

(** C15. Bound on the iterations: [n] iterations of the loop consume at
    least [n] input lines, so from a state with [m] unread lines the loop
    completes at most [m] iterations. *)
Theorem loop_iterations_bounded (n : nat) p p' :
  nsteps loop_step n p p' -> n + length (stdin p') <= length (stdin p).
Proof.
  induction 1 as [|n p1 p2 p3 Hstep _ IH]; [done|].
  pose proof (loop_step_consumes _ _ Hstep). lia.
Qed.
End loop_termination.

(** ** Witnesses *)

Lemma take_input_terminates_witness :
  let p := mkProc (T:=MultiMap) mm_new (lines ["x"; "9"; "3"]) [] in
  stdin p = map Line ["x" +:+ LF; "9" +:+ LF] ++ Line ("3" +:+ LF) :: [] /\
  Forall (fun b => rejected (parse_choice b)) ["x" +:+ LF; "9" +:+ LF] /\
  (exists p', take_input_and_verify (length ["x" +:+ LF; "9" +:+ LF]) p = NoFuel p') /\
  match take_input_and_verify (length ["x" +:+ LF; "9" +:+ LF] + S 0) p with
  | Done c' p' => ["x" +:+ LF; "9" +:+ LF] = [] /\ c' = Update /\ stdin p' = []
  | Panic _ p' => ["x" +:+ LF; "9" +:+ LF] <> [] /\ stdin p' = []
  | NoFuel _ => False
  end.
Proof.
  intros p.
  assert (Forall (fun b => rejected (parse_choice b)) ["x" +:+ LF; "9" +:+ LF]) as Hbad.
  { constructor; [|constructor; [|constructor]];
      intros m Hm; vm_compute in Hm; simplify_eq; lia. }
  split; [reflexivity|]. split; [exact Hbad|].
  assert (1 <= 3 <= 5)%Z as Hn by lia.
  exact (take_input_terminates 0 p ["x" +:+ LF; "9" +:+ LF] ("3" +:+ LF) [] 3 Update eq_refl Hbad eq_refl Hn eq_refl).
Defined.

Lemma loop_iterations_bounded_witness :
  let inp := lines ["1"; "color"; "red"] in
  let p1 := state_of ((display_prompt ;; take_input_and_verify 1) (initial_proc (T:=MultiMap) inp)) in
  let p2 := state_of (dispatch Create p1) in
  nsteps loop_step 1 (initial_proc inp) p2 /\
  1 + length (stdin p2) <= length (stdin (initial_proc (T:=MultiMap) inp)).
Proof.
  intros inp p1 p2.
  assert (nsteps loop_step 1 (initial_proc inp) p2) as Hn.
  { apply nsteps_once. apply (loop_step_intro 1 Create _ p1); vm_compute; reflexivity. }
  split; [exact Hn|]. exact (loop_iterations_bounded 1 _ _ Hn).
Defined.

