(* ===== verification/Safety.v ===== *)
(** * Where the program can panic

    The program has three kinds of panic: a failed [read_line]
    ([expect] on a read error), an [unwrap] in [update_entry], and the
    conversion of the selection at the end of [take_input_and_verify]
    ([choice.unwrap()], the subtraction, [from_i32(..).expect(..)]).  On
    an input with no read error and a store satisfying its invariant, the
    handlers never panic: every panic happens while reading a selection,
    in the conversion of a rejected one, after the re-prompt whose result
    is discarded ([program_loop_panics_only_in_selection]).  The panic is
    located by the iteration it happens in, not only by its message: the
    handlers' [unwrap]s and the conversion's [choice.unwrap()] have the
    same message. *)

From S2P Require Import Prelude RustStr Trim MultiMap Console Menu Handlers Loop Termination.

(** The messages of the panics of [convert_choice]. *)
Definition convert_msgs : list string :=
  [unwrap_msg; sub_overflow_msg; "get Choice enum from i32"].

Section safety.
Context `{MultiMapLaws T}.
Local Abbreviation P := (Proc T).
Implicit Types (p : P).

Lemma convert_choice_panic choice p msg p' :
  convert_choice (T:=T) choice p = Panic msg p' -> msg ∈ convert_msgs.
Proof.
  unfold convert_choice. cbn -[i32_checked_sub Choice_from_i32 convert_msgs].
  destruct choice as [n|]; [|intros [= <- _]; set_solver].
  cbn -[i32_checked_sub Choice_from_i32 convert_msgs].
  destruct (i32_checked_sub n 1) as [m|]; cbn -[Choice_from_i32 convert_msgs];
    [destruct (Choice_from_i32 m)|]; intros; simplify_eq; set_solver.
Qed.

Lemma invalid_choice_total choice p : exists b, invalid_choice (T:=T) choice p = Done b p.
Proof.
  destruct choice as [n|]; [|by eexists]. simpl.
  destruct (n <? 1)%Z; by eexists.
Qed.

(** Without a read error, the only panics of [take_input_and_verify] are
    those of the conversion. *)
Lemma take_input_panic (f : nat) p msg p' :
  ReadError ∉ stdin p -> take_input_and_verify f p = Panic msg p' -> msg ∈ convert_msgs.
Proof.
  revert p. induction f as [|f IH]; intros p Hin Hd; [done|].
  rewrite take_input_and_verify_S in Hd.
  apply bind_Panic_inv in Hd as [Hr|(input & p1 & Hr & Hd)];
    [by apply read_line_expect_Panic in Hr|].
  pose proof (preserves_no_read_error _ _ _ _ (preserves_read_line_expect input_suffix
    input_suffix_read _) Hr Hin) as Hin1.
  cbn zeta in Hd. destruct (invalid_choice_total (parse_choice input) p1) as [b Hb].
  erewrite bind_Done in Hd by exact Hb.
  apply bind_Panic_inv in Hd as [Hx|(u & p3 & Hx & Hd)]; [|by eapply convert_choice_panic].
  destruct b; [|done].
  apply bind_Panic_inv in Hx as [Hx|(u' & p4 & Hx & Hy)]; [done|].
  apply bind_Panic_inv in Hy as [Hy|(u'' & p5 & _ & Hy)]; [|done].
  injection Hx as Hx. subst p4. eapply IH; [|exact Hy]. exact Hin1.
Qed.

(** A panic of [take_input_and_verify] without read errors starts from a
    rejected line: an accepted line returns, and at end of input the
    recursion never ends. *)
Lemma take_input_panic_rejected (f : nat) p msg p' :
  ReadError ∉ stdin p -> take_input_and_verify f p = Panic msg p' ->
  exists s rest, stdin p = Line s :: rest /\ rejected (parse_choice s).
Proof.
  intros Hin Hd. destruct f as [|f]; [done|].
  destruct (stdin p) as [|[s|] rest] eqn:Hs.
  - destruct (take_input_eof_loops (S f) p Hs) as [p0 Heof]. congruence.
  - exists s, rest. split; [done|]. intros n Hn.
    destruct (decide (n < 1 \/ 5 < n)%Z) as [|Hn']; [done|]. exfalso.
    destruct (Choice_from_i32_total (n - 1)) as [c Hc]; [lia|].
    rewrite (take_input_accepts f p s rest n c) in Hd by (done || lia). discriminate.
  - set_solver.
Qed.

(** Without a read error and on a store satisfying the invariant, no
    handler panics. *)
Lemma dispatch_no_panic c p msg p' :
  mm_wf (database p) -> ReadError ∉ stdin p -> dispatch c p <> Panic msg p'.
Proof.
  intros Hwf Hin Hd.
  destruct c; simpl in Hd; exec_handler Hd;
    try (apply Hin; set_solver); try (rewrite for_each_println in Hd; discriminate);
    try (rewrite for_each_entries in Hd; discriminate);
    store_contra Hwf.
Qed.
End safety.

Section loop_safety.
Context `{MultiMapLaws T}.
Local Abbreviation P := (Proc T).

Lemma dispatch_wf c (p p' : P) :
  dispatch c p = Done tt p' -> mm_wf (database p) -> mm_wf (database p').
Proof. apply dispatch_inv; eauto using mm_wf_get_mut_write with rs. Qed.

(** C10. Where the command loop can panic: on an input with no read
    error, from a store satisfying its invariant, a panic of
    [program_loop] happens while reading a selection, in an iteration
    the loop reached, whose selection line was rejected; its message is
    one of the conversion's.  No prompt and no handler ever panics. *)
Theorem program_loop_panics_only_in_selection (f : nat) (p : P) msg p' :
  mm_wf (database p) -> ReadError ∉ stdin p -> program_loop f p = Panic msg p' ->
  exists p0 f' s rest,
    rtc loop_step p p0 /\ stdin p0 = Line s :: rest /\ rejected (parse_choice s) /\
    take_input_and_verify f' (set_stdout (stdout p0 ++ menu_lines) p0) = Panic msg p' /\
    msg ∈ convert_msgs.
Proof.
  revert p. induction f as [|f IH]; intros p Hwf Hin Hd; [done|].
  rewrite program_loop_S, (bind_Done _ _ _ _ _ (display_prompt_output p)) in Hd.
  apply bind_Panic_inv in Hd as [Ht|(c & p1 & Ht & Hd)].
  - destruct (take_input_panic_rejected f (set_stdout (stdout p ++ menu_lines) p) msg p' Hin Ht)
      as (s & rest & Hs & Hr).
    exists p, f, s, rest. split_and!; [done|exact Hs|done|done|].
    eapply take_input_panic; [|exact Ht]. exact Hin.
  - pose proof Ht as Ht'.
    apply take_input_Done_inv in Ht' as (s & rest & n & Hs & _ & _ & _ & ->).
    assert (ReadError ∉ rest) as Hrest by (simpl in Hs; rewrite Hs in Hin; set_solver).
    apply bind_Panic_inv in Hd as [Hd|([] & p2 & Hd & Hl)].
    + exfalso. by eapply (dispatch_no_panic c (mkProc _ rest _)).
    + destruct (IH p2) as (p0 & f' & s' & rest' & Hr & HIH); [| |exact Hl|].
      * by eapply (dispatch_wf c (mkProc _ rest _)).
      * by eapply (preserves_no_read_error _ (mkProc _ rest _) _ _ (dispatch_consumes c)).
      * exists p0, f', s', rest'. split; [|exact HIH].
        eapply rtc_l; [|exact Hr].
        eapply (loop_step_intro f c p _ p2); [|exact Hd].
        rewrite (bind_Done _ _ _ _ _ (display_prompt_output p)). exact Ht.
Qed.
End loop_safety.

(** Witness: the selection "0" is rejected, the re-prompt reads "1" and
    its result is discarded, and the conversion of 0 fails. *)
Lemma program_loop_panics_only_in_selection_witness :
  let p := initial_proc (T:=MultiMap) (lines ["0"; "1"]) in
  mm_wf (database p) /\ ReadError ∉ stdin p /\
  program_loop 3 p = Panic "get Choice enum from i32" (state_of (program_loop 3 p)) /\
  exists p0 f' s rest,
    rtc loop_step p p0 /\ stdin p0 = Line s :: rest /\ rejected (parse_choice s) /\
    take_input_and_verify f' (set_stdout (stdout p0 ++ menu_lines) p0) =
      Panic "get Choice enum from i32" (state_of (program_loop 3 p)) /\
    "get Choice enum from i32" ∈ convert_msgs.
Proof.
  intros p. assert (mm_wf (database p)) as Hwf by apply mm_wf_new.
  assert (ReadError ∉ stdin p) as Hin by (vm_compute; set_solver).
  assert (program_loop 3 p = Panic "get Choice enum from i32" (state_of (program_loop 3 p))) as Hrun
    by (vm_compute; reflexivity).
  split_and!; [exact Hwf|exact Hin|exact Hrun|].
  exact (program_loop_panics_only_in_selection 3 p _ _ Hwf Hin Hrun).
Defined.
